(** * HypnoS: the experience store, learning gates and evaluation clamp

    A shallow embedding of the parts of HypnoS that its specification talks
    about:

    - [experience.h]: the on-disk records [V1::ExpEntry] and [V2::ExpEntry]
      with their [merge] and [compare], and the in-memory chain
      [ExpEntryEx] with its two [find] overloads;
    - [learn/learn.h]: [LearningMode], [LearningMove],
      [PersistedLearningMove] and the inline members of [LearningData];
    - [engine.cpp]: [Engine::set_position];
    - [evaluate.cpp]: [Eval::simple_eval] and [Eval::evaluate].

    C++ [int] (which is what [Value] and [Depth] are) is modelled as [Z]
    together with an explicit two's-complement wrap-around after every
    arithmetic operation; the unsigned types are [Z] reduced modulo a power
    of two. *)

From Stdlib Require Import ZArith List String Bool Lia DecimalString.
Import ListNotations.

Local Open Scope Z_scope.

(* ================================================================== *)
(** * Part I: the embedding                                            *)
(* ================================================================== *)

(** ** Machine integers *)

Module CInt.

Definition INT_MIN : Z := - 2 ^ 31.
Definition INT_MAX : Z := 2 ^ 31 - 1.
Definition UINT16_MAX : Z := 2 ^ 16 - 1.

(** A value representable as a C++ [int]. *)
Definition in_int (x : Z) : Prop := INT_MIN <= x <= INT_MAX.

(** Conversions to fixed-width types: the value modulo [2^w], taken in
    the signed range for [int]. *)
Definition to_int (x : Z) : Z := (x + 2 ^ 31) mod 2 ^ 32 - 2 ^ 31.
Definition to_u8 (x : Z) : Z := x mod 2 ^ 8.
Definition to_u16 (x : Z) : Z := x mod 2 ^ 16.
Definition to_u32 (x : Z) : Z := x mod 2 ^ 32.

(** [int] arithmetic.  [/] truncates toward zero ([Z.quot]). *)
Definition int_add (x y : Z) : Z := to_int (x + y).
Definition int_sub (x y : Z) : Z := to_int (x - y).
Definition int_mul (x y : Z) : Z := to_int (x * y).
Definition int_div (x y : Z) : Z := to_int (x ÷ y).
Definition int_neg (x : Z) : Z := to_int (- x).
Definition int_abs (x : Z) : Z := to_int (Z.abs x).

(** [uint32_t] addition. *)
Definition u32_add (x y : Z) : Z := to_u32 (x + y).

(** [std::clamp(v, lo, hi)]: [(v < lo) ? lo : (hi < v) ? hi : v]. *)
Definition clamp (v lo hi : Z) : Z :=
  if v <? lo then lo else if hi <? v then hi else v.

End CInt.

(** ** experience.h *)

Module Experience.
Import CInt.

Definition Key := Z.     (* uint64_t *)
Definition Move := Z.    (* encoded move; only ever compared with == *)
Definition Value := Z.   (* int *)
Definition Depth := Z.   (* int *)

Definition EXP_MIN_DEPTH : Depth := 4.

Module V1.

(** The four padding bytes carry the fixed pattern 00 FF 00 FF and
    take no part in [merge] or [compare]. *)
Record ExpEntry := mkExpEntry {
  key : Key;
  move : Move;
  value : Value;
  depth : Depth
}.

(** [merge]: [None] is a failed [assert]. *)
Definition merge (self exp : ExpEntry) : option ExpEntry :=
  if negb (key self =? key exp) then None
  else if negb (move self =? move exp) then None
  else if depth self >? depth exp then Some self
  else if depth self =? depth exp then
    Some (mkExpEntry (key self) (move self)
            (int_div (int_add (value self) (value exp)) 2)
            (depth self))
  else
    Some (mkExpEntry (key self) (move self) (value exp) (depth exp)).

Definition compare (self exp : ExpEntry) : Z :=
  let v := int_sub
             (int_mul (value self) (Z.max (int_div (depth self) 5) 1))
             (int_mul (value exp) (Z.max (int_div (depth exp) 5) 1)) in
  if v =? 0 then int_sub (depth self) (depth exp) else v.

End V1.

Module V2.

(** The two padding bytes are zero and take no part in [merge] or
    [compare]. *)
Record ExpEntry := mkExpEntry {
  key : Key;
  move : Move;
  value : Value;
  depth : Depth;
  count : Z            (* uint16_t *)
}.

(** The five-argument constructor; its last parameter is a
    [uint16_t], so the argument is converted on the way in. *)
Definition new5 (k : Key) (m : Move) (v : Value) (d : Depth) (c : Z)
  : ExpEntry :=
  mkExpEntry k m v d (to_u16 c).

Definition new4 (k : Key) (m : Move) (v : Value) (d : Depth) : ExpEntry :=
  new5 k m v d 1.

(** Fields within the range of their C++ types. *)
Definition wf (e : ExpEntry) : Prop :=
  0 <= key e < 2 ^ 64 /\ in_int (value e) /\ in_int (depth e)
  /\ 0 <= count e <= UINT16_MAX.

(** The count after a merge: a saturating add carried out in
    [uint32_t] and cast back to [uint16_t]. *)
Definition merge_count (c1 c2 : Z) : Z :=
  to_u16 (Z.min (u32_add (to_u32 c1) (to_u32 c2)) (to_u32 UINT16_MAX)).

(** [merge]: [None] is a failed [assert]. *)
Definition merge (self exp : ExpEntry) : option ExpEntry :=
  if negb (key self =? key exp) then None
  else if negb (move self =? move exp) then None
  else
    let count' := merge_count (count self) (count exp) in
    if depth self >? depth exp then
      Some (mkExpEntry (key self) (move self) (value self) (depth self)
              count')
    else if depth self =? depth exp then
      Some (mkExpEntry (key self) (move self)
              (int_div (int_add (value self) (value exp)) 2)
              (depth self) count')
    else
      Some (mkExpEntry (key self) (move self) (value exp) (depth exp)
              count').

(** One side of the primary score of [compare]. *)
Definition depth_factor (e : ExpEntry) : Z := Z.max (int_div (depth e) 10) 1.
Definition count_factor (e : ExpEntry) : Z := Z.max (int_div (count e) 3) 1.
Definition score (e : ExpEntry) : Z :=
  int_mul (int_mul (value e) (depth_factor e)) (count_factor e).

Definition compare (self exp : ExpEntry) : Z :=
  let v := int_sub (score self) (score exp) in
  if negb (v =? 0) then v
  else
    let v := int_sub (count self) (count exp) in
    if negb (v =? 0) then v
    else int_sub (depth self) (depth exp).

End V2.

Module Current := V2.

(** [ExpEntryEx]: a [Current::ExpEntry] with a [next] pointer.  A chain
    is finite and singly owned, so the pointer is an optional tail. *)
#[local] Unset Elimination Schemes.
Inductive ExpEntryEx : Type :=
| mkExpEntryEx (entry : Current.ExpEntry) (next : option ExpEntryEx).
#[local] Set Elimination Schemes.

Definition entry (e : ExpEntryEx) : Current.ExpEntry :=
  match e with mkExpEntryEx x _ => x end.

Definition next (e : ExpEntryEx) : option ExpEntryEx :=
  match e with mkExpEntryEx _ n => n end.

(** The constructor of [ExpEntryEx]: its count parameter is a
    [uint8_t], handed on to the [uint16_t] parameter of the base
    constructor. *)
Definition new (k : Key) (m : Move) (v : Value) (d : Depth) (c : Z)
  : ExpEntryEx :=
  mkExpEntryEx (Current.new5 k m v d (to_u8 c)) None.

(** [find(m)] *)
Fixpoint find (self : ExpEntryEx) (m : Move) : option ExpEntryEx :=
  match self with
  | mkExpEntryEx e nxt =>
      if Current.move e =? m then Some self
      else match nxt with
           | Some exp => find exp m
           | None => None
           end
  end.

(** [find(mv, minDepth)] *)
Fixpoint find_min (self : ExpEntryEx) (mv : Move) (minDepth : Depth)
  : option ExpEntryEx :=
  match self with
  | mkExpEntryEx e nxt =>
      if Current.move e =? mv then
        if Current.depth e <? minDepth then None else Some self
      else match nxt with
           | Some temp => find_min temp mv minDepth
           | None => None
           end
  end.

(** The nodes of a chain, head first. *)
Fixpoint nodes (self : ExpEntryEx) : list ExpEntryEx :=
  match self with
  | mkExpEntryEx _ nxt =>
      self :: match nxt with
              | Some n => nodes n
              | None => []
              end
  end.

(** The first node of the chain that holds move [m], if any. *)
Definition first_with_move (self : ExpEntryEx) (m : Move)
  : option ExpEntryEx :=
  List.find (fun n => Current.move (entry n) =? m) (nodes self).

End Experience.

(** ** learn/learn.h *)

Module Learn.
Import Experience.

Inductive LearningMode : Type :=
| Off        (* = 1 *)
| Standard   (* = 2 *)
| Self.      (* = 3 *)

Definition LearningMode_eqb (a b : LearningMode) : bool :=
  match a, b with
  | Off, Off | Standard, Standard | Self, Self => true
  | _, _ => false
  end.

Record LearningMove := mkLearningMove {
  depth : Depth;
  score : Value;
  move : Move;
  performance : Z
}.

Record PersistedLearningMove := mkPersistedLearningMove {
  key : Key;
  learningMove : LearningMove
}.

(** [LearningData].  [HT] is an [unordered_multimap] from keys to
    moves: an association list, duplicates of a key allowed.  The two
    vectors of raw buffers only keep allocations alive and are left
    out. *)
Record LearningData := mkLearningData {
  isPaused : bool;
  isReadOnly : bool;
  needPersisting : bool;
  learningMode : LearningMode;
  HT : list (Key * LearningMove)
}.

Definition is_paused (ld : LearningData) : bool := isPaused ld.

Definition is_enabled (ld : LearningData) : bool :=
  negb (LearningMode_eqb (learningMode ld) Off).

Definition set_readonly (ld : LearningData) (ro : bool) : LearningData :=
  mkLearningData (isPaused ld) ro (needPersisting ld) (learningMode ld)
    (HT ld).

Definition is_readonly (ld : LearningData) : bool := isReadOnly ld.

(** The members of [LearningData] that [learn.h] only declares and
    that [Engine::set_position] calls. *)
Class LearnImpl := {
  learning_mode : LearningData -> LearningMode;
  add_new_learning : LearningData -> Key -> LearningMove -> LearningData
}.


End Learn.

(** ** The learning store as the specification describes it *)

Module LearnSpec.
Import CInt Experience Learn.

(** Modelled from the spec: the merge of an incoming observation into
    an existing one ([learn.cpp] is not among the sources).  A
    [LearningMove] has no count, so only the value/depth rules of the
    specification's [merge] apply: the deeper side wins, equal depths
    average with truncating division. *)
Definition merge_move (existing incoming : LearningMove) : LearningMove :=
  if depth existing >? depth incoming then existing
  else if depth existing =? depth incoming then
    mkLearningMove (depth existing)
      (int_div (int_add (score existing) (score incoming)) 2)
      (move existing) (performance existing)
  else
    mkLearningMove (depth incoming) (score incoming) (move existing)
      (performance existing).

(** Modelled from the spec: the scan of [insert_or_update]
    ([learn.cpp] is not among the sources): the first record with the
    same key and move is merged, otherwise the record is appended. *)
Fixpoint upsert (ht : list (Key * LearningMove)) (k : Key)
  (lm : LearningMove) : list (Key * LearningMove) :=
  match ht with
  | [] => [(k, lm)]
  | (k', lm') :: rest =>
      if (k' =? k) && (move lm' =? move lm)
      then (k', merge_move lm' lm) :: rest
      else (k', lm') :: upsert rest k lm
  end.

(** Modelled from the spec: the three write gates of the learning
    state machine ([learn.cpp] is not among the sources). *)
Definition write_allowed (ld : LearningData) : bool :=
  is_enabled ld && negb (is_paused ld) && negb (is_readonly ld).

(** Modelled from the spec: [LearningData::insert_or_update]
    ([learn.cpp] is not among the sources): suppressed entirely when
    a gate is closed. *)
Definition insert_or_update (ld : LearningData) (k : Key)
  (lm : LearningMove) : LearningData :=
  if write_allowed ld then
    mkLearningData (isPaused ld) (isReadOnly ld) (needPersisting ld)
      (learningMode ld) (upsert (HT ld) k lm)
  else ld.

(** Modelled from the spec: [LearningData::learning_mode] and
    [LearningData::add_new_learning] ([learn.cpp] is not among the
    sources): the getter of the mode, and a write entry point that
    routes through the gates and [insert_or_update]. *)
#[export] Instance spec_impl : LearnImpl := {|
  learning_mode := learningMode;
  add_new_learning := insert_or_update
|}.

End LearnSpec.

(** ** engine.cpp *)

Module Engine.
Import Experience Learn.

Definition Square := Z.

(** What [set_position] reads of [StateInfo::dirtyPiece]. *)
Record DirtyPiece := mkDirtyPiece {
  dirty_num : Z;
  to0 : Square;
  to1 : Square;
  to2 : Square
}.

(** The position layer and the constants of [types.h] that
    [set_position] uses; none of them is defined in the sources. *)
Class PositionLayer := {
  Position : Type;
  pos_set : string -> bool -> Position;       (* Position::set *)
  pos_key : Position -> Key;                  (* Position::key *)
  do_move : Position -> Move -> Position;     (* Position::do_move *)
  dirtyPiece : Position -> DirtyPiece;        (* states->back().dirtyPiece *)
  to_move : Position -> string -> Move;       (* UCIEngine::to_move *)
  to_sq : Move -> Square;                     (* Move::to_sq *)
  Move_none : Move;                           (* Move::none() *)
  SQ_NONE : Square;
  VALUE_NONE : Value
}.

Section WithLayers.
Context {P : PositionLayer} {L : LearnImpl}.

(** The members of [Engine] that [set_position] touches; [states] is
    kept as the length of the deque. *)
Record EngineState := mkEngineState {
  pos : Position;
  states : nat;
  capSq : Square;
  UCI_Chess960 : bool
}.

(** The result of running [set_position]: the engine, the global
    [LD], and the arguments of the calls to [LD.add_new_learning] in
    the order they were made. *)
Record Outcome := mkOutcome {
  engine : EngineState;
  LD : LearningData;
  recorded : list PersistedLearningMove
}.

(** The guard in front of [LD.add_new_learning]. *)
Definition replay_records (ld : LearningData) : bool :=
  is_enabled ld
  && negb (LearningMode_eqb (learning_mode ld) Self)
  && negb (is_paused ld).

(** The record [set_position] builds for move [m] in position [p]. *)
Definition replayed_move (p : Position) (m : Move)
  : PersistedLearningMove :=
  mkPersistedLearningMove (pos_key p)
    (mkLearningMove 0 VALUE_NONE m 100).

(** The loop over [moves]. *)
Fixpoint replay (e : EngineState) (ld : LearningData)
  (moves : list string) : Outcome :=
  match moves with
  | [] => mkOutcome e ld []
  | move :: rest =>
      let m := to_move (pos e) move in
      if m =? Move_none then mkOutcome e ld []
      else
        let plm := replayed_move (pos e) m in
        let calls := if replay_records ld then [plm] else [] in
        let ld1 :=
          if replay_records ld
          then add_new_learning ld (key plm) (learningMove plm)
          else ld in
        let p1 := do_move (pos e) m in
        let dp := dirtyPiece p1 in
        let cap :=
          if (dirty_num dp >? 1) && (to1 dp =? SQ_NONE)
          then to_sq m else SQ_NONE in
        let r :=
          replay (mkEngineState p1 (S (states e)) cap (UCI_Chess960 e))
            ld1 rest in
        mkOutcome (engine r) (LD r) (calls ++ recorded r)
  end.

Definition set_position (e : EngineState) (ld : LearningData)
  (fen : string) (moves : list string) : Outcome :=
  replay
    (mkEngineState (pos_set fen (UCI_Chess960 e)) 1 SQ_NONE
       (UCI_Chess960 e))
    ld moves.

(** The engine after one pass through the loop body with decoded
    move [m]: a new [StateInfo], the move made, [capSq] updated. *)
Definition stepped (e : EngineState) (m : Move) : EngineState :=
  let p1 := do_move (pos e) m in
  mkEngineState p1 (S (states e))
    (if (dirty_num (dirtyPiece p1) >? 1) && (to1 (dirtyPiece p1) =? SQ_NONE)
     then to_sq m else SQ_NONE)
    (UCI_Chess960 e).

(** The moves of a list that decode, each with the position it is
    played from, up to the first one that does not. *)
Fixpoint decoded (p : Position) (moves : list string)
  : list (Position * Move) :=
  match moves with
  | [] => []
  | move :: rest =>
      let m := to_move p move in
      if m =? Move_none then []
      else (p, m) :: decoded (do_move p m) rest
  end.

End WithLayers.

End Engine.

(** ** evaluate.cpp *)

Module Eval.
Import CInt.

Definition Value := Z.   (* int *)

Inductive Color : Type := WHITE | BLACK.

Definition flip (c : Color) : Color :=
  match c with WHITE => BLACK | BLACK => WHITE end.

Inductive NetSize : Type := Big | Small.

(** What [evaluate] asks of the position, of the network and of
    [types.h] / [evaluate.h]; none of it is defined in the sources. *)
Class EvalLayer := {
  Position : Type;
  checkers : Position -> Z;                         (* a bitboard *)
  side_to_move : Position -> Color;
  count_PAWN : Position -> Color -> Z;              (* count<PAWN>(c) *)
  count_PAWN_all : Position -> Z;                   (* count<PAWN>() *)
  non_pawn_material_of : Position -> Color -> Value;
  non_pawn_material : Position -> Value;
  rule50_count : Position -> Z;
  thread_optimism : Position -> Color -> Z;         (* this_thread()->optimism[c] *)
  (** [NNUE::evaluate<size>(pos, adjusted, &complexity, psqtOnly)]:
      the value and the complexity written through the pointer. *)
  nnue_evaluate : NetSize -> Position -> bool -> bool -> Value * Z;
  PawnValue : Value;
  SmallNetThreshold : Z;
  PsqtOnlyThreshold : Z;
  VALUE_TB_WIN_IN_MAX_PLY : Value;
  VALUE_TB_LOSS_IN_MAX_PLY : Value
}.

Section WithLayer.
Context {E : EvalLayer}.

Definition simple_eval (pos : Position) (c : Color) : Z :=
  int_add
    (int_mul PawnValue
       (int_sub (count_PAWN pos c) (count_PAWN pos (flip c))))
    (int_sub (non_pawn_material_of pos c)
       (non_pawn_material_of pos (flip c))).

(** The lambda [adjustEval]; it updates the captured [optimism] and
    [nnue], which are not read again after the call. *)
Definition adjustEval (pos : Position) (simpleEval nnue nnueComplexity
  optimism : Z) (optDiv nnueDiv pawnCountConstant pawnCountMul
  npmConstant evalDiv : Z) : Z :=
  let absDiff := int_abs (int_sub simpleEval nnue) in
  let optimism :=
    int_add optimism
      (int_div (int_mul optimism (int_add nnueComplexity absDiff))
         optDiv) in
  let nnue :=
    int_sub nnue
      (int_div (int_mul nnue (int_add nnueComplexity absDiff)) nnueDiv) in
  let npm := int_div (non_pawn_material pos) 64 in
  int_div
    (int_add
       (int_mul nnue
          (int_add (int_add npm pawnCountConstant)
             (int_mul pawnCountMul (count_PAWN_all pos))))
       (int_mul optimism (int_add npmConstant npm)))
    evalDiv.

(** [evaluate]: [None] is the failed [assert(!pos.checkers())]. *)
Definition evaluate (pos : Position) : option Value :=
  if negb (checkers pos =? 0) then None
  else
    let simpleEval := simple_eval pos (side_to_move pos) in
    let smallNet := int_abs simpleEval >? SmallNetThreshold in
    let psqtOnly := int_abs simpleEval >? PsqtOnlyThreshold in
    let '(nnue, nnueComplexity) :=
      if smallNet then nnue_evaluate Small pos true psqtOnly
      else nnue_evaluate Big pos true false in
    let optimism := thread_optimism pos (side_to_move pos) in
    let optDiv := if smallNet then 517 else 499 in
    let nnueDiv := if smallNet then 32857 else 32793 in
    let pawnCountConstant := if smallNet then 908 else 903 in
    let pawnCountMul := if smallNet then 7 else 9 in
    let npmConstant := if smallNet then 155 else 147 in
    let evalDiv := if smallNet then 1019 else 1067 in
    let shufflingConstant := if smallNet then 224 else 208 in
    let shufflingDiv := if smallNet then 238 else 211 in
    let v :=
      adjustEval pos simpleEval nnue nnueComplexity optimism optDiv
        nnueDiv pawnCountConstant pawnCountMul npmConstant evalDiv in
    let shuffling := rule50_count pos in
    let v :=
      int_div (int_mul v (int_sub shufflingConstant shuffling))
        shufflingDiv in
    Some (clamp v (int_add VALUE_TB_LOSS_IN_MAX_PLY 1)
            (int_sub VALUE_TB_WIN_IN_MAX_PLY 1)).

End WithLayer.

End Eval.

(** ** Concrete inputs *)

(** Small stand-ins for the layers the sources leave out, and a few
    records, on which the functions above can be run. *)
Module Samples.
Import Experience Learn Engine.

Open Scope string_scope.

(** A position is the list of moves made so far, latest first; two
    move strings decode. *)
#[export] Instance toy_position : PositionLayer := {|
  Position := list Move;
  pos_set := fun _ _ => [];
  pos_key := fun p => 1000 + Z.of_nat (List.length p);
  do_move := fun p m => m :: p;
  dirtyPiece := fun _ => mkDirtyPiece 1 28 64 64;
  to_move := fun _ s =>
    if String.eqb s "e2e4" then 796
    else if String.eqb s "e7e5" then 3364
    else 0;
  to_sq := fun m => m mod 64;
  Move_none := 0;
  SQ_NONE := 64;
  VALUE_NONE := 32002
|}.

Close Scope string_scope.

Definition toy_engine : EngineState := mkEngineState [] 1 64 false.

Definition ld_standard : LearningData :=
  mkLearningData false false false Standard [].


Definition ld_readonly : LearningData :=
  mkLearningData false true false Standard [].

Definition ld_paused : LearningData :=
  mkLearningData true false false Standard [].

(** Two observations of one move at the same depth, and a deeper one. *)
Definition obs50 : V2.ExpEntry := V2.new4 77 796 50 10.
Definition obs70 : V2.ExpEntry := V2.new4 77 796 70 10.
Definition obs_deep : V2.ExpEntry := V2.new4 77 796 70 12.
Definition obs_other : V2.ExpEntry := V2.new5 77 731 (-20) 25 7.

(** A chain of two moves. *)
Definition chain2 : ExpEntryEx :=
  mkExpEntryEx obs_other (Some (mkExpEntryEx obs_deep None)).

(** A position for [evaluate] is the pair of the network's value and
    the checkers bitboard; everything else is fixed. *)
#[export] Instance toy_eval : Eval.EvalLayer := {|
  Eval.Position := Z * Z;
  Eval.checkers := fun p => snd p;
  Eval.side_to_move := fun _ => Eval.WHITE;
  Eval.count_PAWN := fun _ _ => 8;
  Eval.count_PAWN_all := fun _ => 16;
  Eval.non_pawn_material_of := fun _ _ => 8302;
  Eval.non_pawn_material := fun _ => 16604;
  Eval.rule50_count := fun _ => 0;
  Eval.thread_optimism := fun _ _ => 0;
  Eval.nnue_evaluate := fun _ p _ _ => (fst p, 100);
  Eval.PawnValue := 208;
  Eval.SmallNetThreshold := 1139;
  Eval.PsqtOnlyThreshold := 2500;
  Eval.VALUE_TB_WIN_IN_MAX_PLY := 31508;
  Eval.VALUE_TB_LOSS_IN_MAX_PLY := -31508
|}.

End Samples.

(** ** Ranges in which [compare] does not overflow *)

Module Ranges.
Import CInt Experience.

(** A V2 record whose primary score and depth lie between [-2^30]
    and [2^30 - 1]: the difference of two such scores or depths is
    representable as an [int]. *)
Definition modest (e : V2.ExpEntry) : Prop :=
  - 2 ^ 30 <= V2.value e * Z.max (V2.depth e ÷ 10) 1
                * Z.max (V2.count e ÷ 3) 1 < 2 ^ 30
  /\ - 2 ^ 30 <= V2.depth e < 2 ^ 30.

End Ranges.

(** ** engine.cpp: the thread binding report *)

Module EngineInfo.

Open Scope string_scope.

(** What the report asks of [NumaConfig]. *)
Record NumaConfig := mkNumaConfig {
  num_numa_nodes : nat;
  num_cpus_in_numa_node : nat -> N
}.

(** The first loop of [get_bound_thread_count_by_numa_node], from
    index [n] on: one pair per entry of [counts]. *)
Fixpoint bound_pairs (cfg : NumaConfig) (counts : list N) (n : nat)
  : list (N * N) :=
  match counts with
  | [] => []
  | c :: rest =>
      (c, num_cpus_in_numa_node cfg n) :: bound_pairs cfg rest (S n)
  end.

(** Its second loop, from index [n] up to [num_numa_nodes]. *)
Definition unbound_pairs (cfg : NumaConfig) (n : nat) : list (N * N) :=
  map (fun i => (0%N, num_cpus_in_numa_node cfg i))
    (seq n (num_numa_nodes cfg - n)).

(** [Engine::get_bound_thread_count_by_numa_node], as a function of
    the counts the thread pool reports and of the NUMA configuration. *)
Definition get_bound_thread_count_by_numa_node (counts : list N)
  (cfg : NumaConfig) : list (N * N) :=
  bound_pairs cfg counts 0
  ++ (if negb (Nat.eqb (List.length counts) 0)
      then unbound_pairs cfg (List.length counts)
      else []).

(** [operator<<] on a [size_t]: decimal digits. *)
Definition show (n : N) : string :=
  DecimalString.NilZero.string_of_uint (N.to_uint n).

(** The loop of [thread_binding_information_as_string] over the pairs,
    with the stream contents [ss] and the flag [isFirst] as state. *)
Fixpoint binding_loop (ss : string) (isFirst : bool)
  (pairs : list (N * N)) : string :=
  match pairs with
  | [] => ss
  | (current, total) :: rest =>
      let ss := if negb isFirst then ss ++ ":" else ss in
      let ss := ss ++ show current ++ "/" ++ show total in
      binding_loop ss false rest
  end.

(** [Engine::thread_binding_information_as_string], as a function of
    the size of the thread pool and of what
    [get_bound_thread_count_by_numa_node] returns. *)
Definition thread_binding_information_as_string (threadsSize : N)
  (boundThreadsByNode : list (N * N)) : string :=
  let ss :=
    "Using " ++ show threadsSize
    ++ (if (1 <? threadsSize)%N then " threads" else " thread") in
  match boundThreadsByNode with
  | [] => ss
  | _ => binding_loop (ss ++ " with NUMA node thread binding: ") true
           boundThreadsByNode
  end.

(** One pair as the loop prints it. *)
Definition ratio (ct : N * N) : string :=
  show (fst ct) ++ "/" ++ show (snd ct).

(** [Engine::numa_config_information_as_string], as a function of the
    configuration string. *)
Definition numa_config_information_as_string (cfgStr : string) : string :=
  "Available processors: " ++ cfgStr.

End EngineInfo.

(** ** evaluate.cpp: loading and verifying the networks *)

Module NNUEFiles.
Import Eval.

Open Scope string_scope.

Record EvalFile := mkEvalFile {
  option_name : string;
  default_name : string;
  selected_name : string
}.

(** What [NNUE::init] and [NNUE::verify] take from outside this file:
    the option table, the directories, and the outcome of
    [NNUE::load_eval] on a file of a directory and on the embedded
    data. *)
Class NNUEEnv := {
  Options : string -> string;
  binaryDirectory : string;
  DEFAULT_NNUE_DIRECTORY : option string;      (* the macro, if defined *)
  load_eval_file : string -> string -> NetSize -> bool;
  load_eval_embedded : string -> NetSize -> bool
}.

Section WithEnv.
Context {V : NNUEEnv}.

Definition NetSize_eqb (a b : NetSize) : bool :=
  match a, b with
  | Big, Big | Small, Small => true
  | _, _ => false
  end.

(** The file a net is asked to use: the default one for the small net,
    the option's value for the big one, the default one if that is
    empty. *)
Definition user_eval_file (netSize : NetSize) (evalFile : EvalFile)
  : string :=
  let f := if NetSize_eqb netSize Small then default_name evalFile
           else Options (option_name evalFile) in
  if String.eqb f "" then default_name evalFile else f.

Definition dirs : list string :=
  "<internal>" :: "" :: binaryDirectory
  :: match DEFAULT_NNUE_DIRECTORY with
     | Some d => [d]
     | None => []
     end.

Definition select (evalFile : EvalFile) (name : string) : EvalFile :=
  mkEvalFile (option_name evalFile) (default_name evalFile) name.

(** The body of the loop over the directories. *)
Definition try_directory (netSize : NetSize) (user : string)
  (evalFile : EvalFile) (directory : string) : EvalFile :=
  if negb (String.eqb (selected_name evalFile) user) then
    let evalFile :=
      if negb (String.eqb directory "<internal>") then
        if load_eval_file (directory ++ user) user netSize
        then select evalFile user
        else evalFile
      else evalFile in
    if String.eqb directory "<internal>"
       && String.eqb user (default_name evalFile)
    then
      if load_eval_embedded user netSize
      then select evalFile user
      else evalFile
    else evalFile
  else evalFile.

(** The body of the loop of [NNUE::init] over the nets. *)
Definition init_net (netSize : NetSize) (evalFile : EvalFile) : EvalFile :=
  let user := user_eval_file netSize evalFile in
  fold_left (try_directory netSize user) dirs evalFile.

(** [NNUE::init], on the table [EvalFiles] in the order it is
    iterated. *)
Definition init (EvalFiles : list (NetSize * EvalFile))
  : list (NetSize * EvalFile) :=
  map (fun ne => (fst ne, init_net (fst ne) (snd ne))) EvalFiles.

(** How [NNUE::verify] ends: it returns, or it calls
    [exit(EXIT_FAILURE)]; either way with the lines it has printed. *)
Inductive Verified : Type :=
| Returned (out : list string)
| Exited (out : list string).

Definition error_lines (evalFile : EvalFile) (user : string) : list string :=
  [ "info string ERROR: "
    ++ "Network evaluation parameters compatible with the engine must be available.";
    "info string ERROR: "
    ++ ("The network file " ++ user ++ " was not loaded successfully.");
    "info string ERROR: "
    ++ ("The UCI option EvalFile might need to specify the full path, "
        ++ "including the directory name, to the network file.");
    "info string ERROR: "
    ++ ("The default net can be downloaded from: "
        ++ "https://tests.stockfishchess.org/api/nn/"
        ++ default_name evalFile);
    "info string ERROR: " ++ "The engine will be terminated now." ].

(** [NNUE::verify], with the lines printed so far. *)
Fixpoint verify_from (out : list string)
  (EvalFiles : list (NetSize * EvalFile)) : Verified :=
  match EvalFiles with
  | [] => Returned out
  | (netSize, evalFile) :: rest =>
      let user := user_eval_file netSize evalFile in
      if negb (String.eqb (selected_name evalFile) user)
      then Exited (out ++ error_lines evalFile user)
      else verify_from
             (out ++ ["info string NNUE evaluation using " ++ user]) rest
  end.

Definition verify (EvalFiles : list (NetSize * EvalFile)) : Verified :=
  verify_from [] EvalFiles.

(** Whether the net named [user] can be loaded from [directory]: from
    the file of that name in a directory proper, or from the embedded
    data when the directory is ["<internal>"] and [user] is the
    default name [dflt]. *)
Definition loadable (netSize : NetSize) (user dflt directory : string)
  : bool :=
  (negb (String.eqb directory "<internal>")
   && load_eval_file (directory ++ user) user netSize)
  || (String.eqb directory "<internal>" && String.eqb user dflt
      && load_eval_embedded user netSize).

End WithEnv.

End NNUEFiles.

(** ** More concrete inputs *)

Module MoreSamples.
Import Experience Learn Engine EngineInfo NNUEFiles.

Open Scope string_scope.

(** A third observation of the sample move, deeper than the others. *)
Definition obs_deepest : V2.ExpEntry := V2.new5 77 796 (-15) 20 4.

(** A store that keeps every record it is handed, newest first, and
    marks itself as needing to be persisted. *)
#[export] Instance logging_store : LearnImpl := {|
  learning_mode := learningMode;
  add_new_learning := fun ld k lm =>
    mkLearningData (isPaused ld) (isReadOnly ld) true (learningMode ld)
      ((k, lm) :: HT ld)
|}.

Definition ld_off : LearningData :=
  mkLearningData false false false Off [].

(** Two NUMA nodes of 8 CPUs and one of 4. *)
Definition numa3 : NumaConfig :=
  mkNumaConfig 3 (fun i => if Nat.ltb i 2 then 8%N else 4%N).

(** No option set, the big net as a file in the binary directory, the
    small net embedded. *)
#[export] Instance toy_files : NNUEEnv := {|
  Options := fun _ => "";
  binaryDirectory := "/opt/engine/";
  DEFAULT_NNUE_DIRECTORY := None;
  load_eval_file := fun path _ _ => String.eqb path "/opt/engine/big.nnue";
  load_eval_embedded := fun _ size =>
    match size with Eval.Small => true | Eval.Big => false end
|}.

Definition fresh_files : list (Eval.NetSize * EvalFile) :=
  [ (Eval.Big, mkEvalFile "EvalFile" "big.nnue" "None");
    (Eval.Small, mkEvalFile "EvalFileSmall" "small.nnue" "None") ].

End MoreSamples.

(* ================================================================== *)
(** * Part II: properties                                              *)
(* ================================================================== *)

(** ** Facts about machine integers *)

Module CIntFacts.
Import CInt.

Ltac unfold_cint :=
  unfold int_add, int_sub, int_mul, int_div, int_neg, int_abs, u32_add,
    to_int, to_u8, to_u16, to_u32, in_int, INT_MIN, INT_MAX, UINT16_MAX
    in *.

(** Closes goals about the wrap-around by turning [mod] into its
    defining equations. *)
Ltac wrap_arith :=
  unfold_cint;
  change (2 ^ 31) with 2147483648 in *;
  change (2 ^ 32) with 4294967296 in *;
  change (2 ^ 16) with 65536 in *;
  change (2 ^ 8) with 256 in *;
  Z.div_mod_to_equations; lia.

Lemma to_int_range (x : Z) : in_int (to_int x).
Proof. wrap_arith. Qed.

Lemma to_int_id (x : Z) : in_int x -> to_int x = x.
Proof. intros H. wrap_arith. Qed.

Lemma to_int_neg_wrap (x : Z) : to_int (- to_int x) = to_int (- x).
Proof. wrap_arith. Qed.

Lemma to_int_neg_zero (x : Z) : to_int (- x) = 0 <-> to_int x = 0.
Proof. split; intros H; wrap_arith. Qed.

Lemma int_neg_sub (x y : Z) : int_neg (int_sub y x) = int_sub x y.
Proof.
  unfold int_neg, int_sub. rewrite to_int_neg_wrap.
  f_equal. lia.
Qed.

Lemma int_sub_zero_sym (x y : Z) : int_sub x y = 0 <-> int_sub y x = 0.
Proof.
  unfold int_sub. replace (x - y) with (- (y - x)) by lia.
  apply to_int_neg_zero.
Qed.

Lemma int_neg_exact (x : Z) :
  in_int x -> x <> INT_MIN -> int_neg x = - x.
Proof. intros H1 H2. wrap_arith. Qed.

Lemma int_add_exact (x y : Z) : in_int (x + y) -> int_add x y = x + y.
Proof. intros H. unfold int_add. now apply to_int_id. Qed.

Lemma int_sub_exact (x y : Z) : in_int (x - y) -> int_sub x y = x - y.
Proof. intros H. unfold int_sub. now apply to_int_id. Qed.

Lemma int_mul_exact (x y : Z) : in_int (x * y) -> int_mul x y = x * y.
Proof. intros H. unfold int_mul. now apply to_int_id. Qed.

(** Dividing an [int] by a positive constant never overflows. *)
Lemma int_div_exact (x d : Z) : in_int x -> 0 < d -> int_div x d = x ÷ d.
Proof.
  intros H Hd. unfold int_div. apply to_int_id.
  unfold in_int, INT_MIN, INT_MAX in *.
  destruct (Z.le_gt_cases 0 x) as [Hx | Hx].
  - rewrite Z.quot_div_nonneg by lia.
    pose proof (Z.div_pos x d Hx Hd).
    assert (x / d <= x) by (apply Z.div_le_upper_bound; nia).
    lia.
  - replace x with (- (- x)) by lia.
    rewrite Z.quot_opp_l by lia.
    rewrite Z.quot_div_nonneg by lia.
    assert (0 <= - x / d) by (apply Z.div_pos; lia).
    assert (- x / d <= - x) by (apply Z.div_le_upper_bound; nia).
    lia.
Qed.

Lemma to_u16_id (x : Z) : 0 <= x <= UINT16_MAX -> to_u16 x = x.
Proof. intros H. wrap_arith. Qed.

Lemma to_u32_id (x : Z) : 0 <= x < 2 ^ 32 -> to_u32 x = x.
Proof. intros H. wrap_arith. Qed.

Lemma to_u8_range (x : Z) : 0 <= to_u8 x <= 255.
Proof. wrap_arith. Qed.

Lemma clamp_bounds (v lo hi : Z) : lo <= hi -> lo <= clamp v lo hi <= hi.
Proof.
  intros H. unfold clamp.
  destruct (Z.ltb_spec v lo); [lia|].
  destruct (Z.ltb_spec hi v); lia.
Qed.

End CIntFacts.

(** ** Wrap-around is a ring homomorphism *)

Module WrapFacts.
Import CInt CIntFacts.

Lemma to_int_shift (x k : Z) : to_int (x + k * 2 ^ 32) = to_int x.
Proof.
  unfold to_int.
  replace (x + k * 2 ^ 32 + 2 ^ 31) with (x + 2 ^ 31 + k * 2 ^ 32) by lia.
  now rewrite Z.mod_add by lia.
Qed.

Lemma to_int_decompose (x : Z) : exists k, to_int x = x + k * 2 ^ 32.
Proof.
  exists (- ((x + 2 ^ 31) / 2 ^ 32)). unfold to_int.
  rewrite Z.mod_eq by lia. lia.
Qed.

Lemma to_int_mul_l (x y : Z) : to_int (to_int x * y) = to_int (x * y).
Proof.
  destruct (to_int_decompose x) as [k ->].
  replace ((x + k * 2 ^ 32) * y) with (x * y + (k * y) * 2 ^ 32) by ring.
  apply to_int_shift.
Qed.

Lemma to_int_sub_both (x y : Z) :
  to_int (to_int x - to_int y) = to_int (x - y).
Proof.
  destruct (to_int_decompose x) as [k ->].
  destruct (to_int_decompose y) as [j ->].
  replace (x + k * 2 ^ 32 - (y + j * 2 ^ 32))
    with (x - y + (k - j) * 2 ^ 32) by ring.
  apply to_int_shift.
Qed.

End WrapFacts.

(** ** experience.h: merge, compare, find and the constructors *)

Module ExperienceFacts.
Import CInt CIntFacts WrapFacts Experience.

(** *** Induction on chains *)

Lemma ExpEntryEx_chain_ind (Q : ExpEntryEx -> Prop) :
  (forall e, Q (mkExpEntryEx e None)) ->
  (forall e n, Q n -> Q (mkExpEntryEx e (Some n))) ->
  forall c, Q c.
Proof.
  intros Hlast Hlink.
  fix IH 1. intros [e [n|]].
  - apply Hlink. apply IH.
  - apply Hlast.
Qed.

(** *** The count of a merge *)

Lemma merge_count_saturates (c1 c2 : Z) :
  0 <= c1 <= UINT16_MAX -> 0 <= c2 <= UINT16_MAX ->
  V2.merge_count c1 c2 = Z.min (c1 + c2) 65535.
Proof.
  intros H1 H2. unfold V2.merge_count, u32_add.
  assert (E16 : UINT16_MAX = 65535) by reflexivity.
  rewrite (to_u32_id c1), (to_u32_id c2), (to_u32_id UINT16_MAX)
    by (rewrite ?E16 in *; lia).
  rewrite (to_u32_id (c1 + c2)) by (rewrite E16 in *; lia).
  rewrite E16 in *. apply to_u16_id. rewrite E16. lia.
Qed.

Lemma merge_count_comm (c1 c2 : Z) :
  V2.merge_count c1 c2 = V2.merge_count c2 c1.
Proof.
  unfold V2.merge_count, u32_add. now rewrite Z.add_comm.
Qed.

(** The same keys and moves pass both assertions of [merge]. *)
Lemma merge_asserts_pass (a b : V2.ExpEntry) :
  V2.key a = V2.key b -> V2.move a = V2.move b ->
  V2.merge a b =
    let c := V2.merge_count (V2.count a) (V2.count b) in
    if V2.depth a >? V2.depth b then
      Some (V2.mkExpEntry (V2.key a) (V2.move a) (V2.value a) (V2.depth a) c)
    else if V2.depth a =? V2.depth b then
      Some (V2.mkExpEntry (V2.key a) (V2.move a)
              (int_div (int_add (V2.value a) (V2.value b)) 2)
              (V2.depth a) c)
    else
      Some (V2.mkExpEntry (V2.key a) (V2.move a) (V2.value b) (V2.depth b) c).
Proof.
  intros Hk Hm. unfold V2.merge.
  rewrite Hk, Hm, !Z.eqb_refl. reflexivity.
Qed.

(** The average of two values, in [int] arithmetic and exactly. *)
Lemma average_wrapped (x y : Z) :
  int_div (int_add x y) 2 = to_int (x + y) ÷ 2.
Proof.
  unfold int_add. apply int_div_exact; [apply to_int_range | lia].
Qed.

Lemma average_exact (x y : Z) :
  in_int (x + y) -> int_div (int_add x y) 2 = (x + y) ÷ 2.
Proof.
  intros H. rewrite average_wrapped. now rewrite to_int_id.
Qed.

(** C1: merging an incoming record [b] into an existing record [a] of
    the same key and move succeeds; the count becomes the saturating
    sum [min (a.count + b.count) 65535] whatever the depths are, the
    depth becomes the larger of the two, and the value is [a]'s when
    [a] is deeper, [b]'s when [b] is deeper, and at equal depth the
    average [(a.value + b.value) / 2] of C++ [int] arithmetic, which is
    the integer average truncated toward zero whenever the sum is
    representable as an [int]. *)
Theorem merge_count_depth_value (a b : V2.ExpEntry) :
  V2.wf a -> V2.wf b ->
  V2.key a = V2.key b -> V2.move a = V2.move b ->
  exists r,
    V2.merge a b = Some r
    /\ V2.count r = Z.min (V2.count a + V2.count b) 65535
    /\ V2.depth r = Z.max (V2.depth a) (V2.depth b)
    /\ (V2.depth a > V2.depth b -> V2.value r = V2.value a)
    /\ (V2.depth a = V2.depth b ->
        V2.value r = to_int (V2.value a + V2.value b) ÷ 2
        /\ (in_int (V2.value a + V2.value b) ->
            V2.value r = (V2.value a + V2.value b) ÷ 2))
    /\ (V2.depth b > V2.depth a -> V2.value r = V2.value b).
Proof.
  intros (_ & _ & _ & Hca) (_ & _ & _ & Hcb) Hk Hm.
  rewrite (merge_asserts_pass a b Hk Hm). cbv zeta.
  rewrite (merge_count_saturates _ _ Hca Hcb).
  destruct (Z.gtb_spec (V2.depth a) (V2.depth b)) as [Hgt | Hle].
  - eexists; split; [reflexivity|]. cbn.
    repeat split; try lia.
  - destruct (Z.eqb_spec (V2.depth a) (V2.depth b)) as [Heq | Hne].
    + eexists; split; [reflexivity|]. cbn.
      repeat split; try lia.
      * apply average_wrapped.
      * apply average_exact; assumption.
    + eexists; split; [reflexivity|]. cbn.
      repeat split; try lia.
Qed.

(** C7: for two records of the same key and move whose depths differ,
    merging [b] into [a] and merging [a] into [b] leave the same
    value, depth and count. *)
Theorem merge_order_insensitive_when_deeper (a b : V2.ExpEntry) :
  V2.key a = V2.key b -> V2.move a = V2.move b ->
  V2.depth a <> V2.depth b ->
  exists r1 r2,
    V2.merge a b = Some r1 /\ V2.merge b a = Some r2
    /\ V2.value r1 = V2.value r2
    /\ V2.depth r1 = V2.depth r2
    /\ V2.count r1 = V2.count r2.
Proof.
  intros Hk Hm Hd.
  rewrite (merge_asserts_pass a b Hk Hm).
  rewrite (merge_asserts_pass b a (eq_sym Hk) (eq_sym Hm)). cbv zeta.
  rewrite (merge_count_comm (V2.count b) (V2.count a)).
  destruct (Z.gtb_spec (V2.depth a) (V2.depth b)) as [Hab | Hab];
    destruct (Z.gtb_spec (V2.depth b) (V2.depth a)) as [Hba | Hba];
    try lia.
  - destruct (Z.eqb_spec (V2.depth b) (V2.depth a)); [lia|].
    do 2 eexists. repeat split; reflexivity.
  - destruct (Z.eqb_spec (V2.depth a) (V2.depth b)); [lia|].
    do 2 eexists. repeat split; reflexivity.
Qed.

(** Two observations of one move: (50, depth 10) then (70, depth 10)
    give value 60, depth 10, count 2; (50, depth 8) then (70, depth 12)
    give value 70, depth 12, count 2. *)
Example merge_same_depth :
  V2.merge (V2.new4 77 796 50 10) (V2.new4 77 796 70 10)
  = Some (V2.mkExpEntry 77 796 60 10 2).
Proof. reflexivity. Qed.

Example merge_deeper_incoming :
  V2.merge (V2.new4 77 796 50 8) (V2.new4 77 796 70 12)
  = Some (V2.mkExpEntry 77 796 70 12 2).
Proof. reflexivity. Qed.

Example merge_count_at_cap :
  V2.merge (V2.new5 77 796 (-7) 5 65535) (V2.new5 77 796 2 5 3)
  = Some (V2.mkExpEntry 77 796 (-2) 5 65535).
Proof. reflexivity. Qed.

Example merge_other_move_asserts :
  V2.merge (V2.new4 77 796 50 10) (V2.new4 77 731 70 10) = None.
Proof. reflexivity. Qed.

(** *** compare *)

Lemma V2_score_wrapped (e : V2.ExpEntry) :
  V2.score e =
    to_int (V2.value e * V2.depth_factor e * V2.count_factor e).
Proof.
  unfold V2.score, int_mul. apply to_int_mul_l.
Qed.

Lemma V2_factors_exact (e : V2.ExpEntry) :
  V2.wf e ->
  V2.depth_factor e = Z.max (V2.depth e ÷ 10) 1
  /\ V2.count_factor e = Z.max (V2.count e ÷ 3) 1.
Proof.
  intros (_ & _ & Hd & Hc). unfold V2.depth_factor, V2.count_factor.
  rewrite !int_div_exact; try lia; try assumption.
  unfold in_int, INT_MIN, INT_MAX, UINT16_MAX in *. lia.
Qed.

Lemma V2_primary_wrapped (a b : V2.ExpEntry) :
  V2.wf a -> V2.wf b ->
  int_sub (V2.score a) (V2.score b) =
    to_int (V2.value a * Z.max (V2.depth a ÷ 10) 1
              * Z.max (V2.count a ÷ 3) 1
            - V2.value b * Z.max (V2.depth b ÷ 10) 1
              * Z.max (V2.count b ÷ 3) 1).
Proof.
  intros Ha Hb.
  destruct (V2_factors_exact a Ha) as [<- <-].
  destruct (V2_factors_exact b Hb) as [<- <-].
  rewrite !V2_score_wrapped. unfold int_sub. apply to_int_sub_both.
Qed.

Lemma V2_count_diff_exact (a b : V2.ExpEntry) :
  V2.wf a -> V2.wf b ->
  int_sub (V2.count a) (V2.count b) = V2.count a - V2.count b.
Proof.
  intros (_ & _ & _ & Ha) (_ & _ & _ & Hb). apply int_sub_exact.
  unfold in_int, INT_MIN, INT_MAX, UINT16_MAX in *. lia.
Qed.

(** C4: for well-formed V2 records, [compare a b] is the difference of
    the primary scores [value * max (depth / 10) 1 * max (count / 3) 1]
    whenever that difference, as the C++ [int] it is computed in, is
    not zero; otherwise it is [a.count - b.count] if the counts
    differ, and otherwise [a.depth - b.depth].  A depth below 10 or a
    count below 3 gives the multiplier 1, so the value term is then
    the value itself. *)
Theorem compare_score_then_count_then_depth (a b : V2.ExpEntry) :
  V2.wf a -> V2.wf b ->
  let pa := V2.value a * Z.max (V2.depth a ÷ 10) 1
            * Z.max (V2.count a ÷ 3) 1 in
  let pb := V2.value b * Z.max (V2.depth b ÷ 10) 1
            * Z.max (V2.count b ÷ 3) 1 in
  let primary := to_int (pa - pb) in
  (in_int (pa - pb) -> primary = pa - pb)
  /\ (primary <> 0 -> V2.compare a b = primary)
  /\ (primary = 0 -> V2.count a <> V2.count b ->
      V2.compare a b = V2.count a - V2.count b)
  /\ (primary = 0 -> V2.count a = V2.count b ->
      V2.compare a b = to_int (V2.depth a - V2.depth b)
      /\ (in_int (V2.depth a - V2.depth b) ->
          V2.compare a b = V2.depth a - V2.depth b))
  /\ (V2.depth a < 10 -> Z.max (V2.depth a ÷ 10) 1 = 1)
  /\ (V2.count a < 3 -> Z.max (V2.count a ÷ 3) 1 = 1)
  /\ (V2.depth a < 10 -> V2.count a < 3 -> pa = V2.value a).
Proof.
  intros Ha Hb pa pb primary.
  assert (Hprim : int_sub (V2.score a) (V2.score b) = primary)
    by (apply V2_primary_wrapped; assumption).
  assert (Hcnt := V2_count_diff_exact a b Ha Hb).
  assert (Hfd : V2.depth a < 10 -> Z.max (V2.depth a ÷ 10) 1 = 1).
  { intros Hlt. apply Z.max_r.
    destruct (Z.le_gt_cases 0 (V2.depth a)).
    - rewrite Z.quot_small; lia.
    - pose proof (Z.quot_le_mono (V2.depth a) 0 10). 
      rewrite Z.quot_0_l in *; lia. }
  assert (Hfc : V2.count a < 3 -> Z.max (V2.count a ÷ 3) 1 = 1).
  { intros Hlt. destruct Ha as (_ & _ & _ & Hc).
    rewrite Z.quot_small; lia. }
  unfold V2.compare. cbv zeta. rewrite Hprim, Hcnt.
  split; [ intros Hin; apply to_int_id; exact Hin |].
  split.
  { intros Hnz. destruct (Z.eqb_spec primary 0); [contradiction|].
    reflexivity. }
  split.
  { intros Hz Hc. rewrite Hz. cbn.
    destruct (Z.eqb_spec (V2.count a - V2.count b) 0); [lia|].
    reflexivity. }
  split.
  { intros Hz Hc. rewrite Hz, Hc, Z.sub_diag. cbn.
    split; [reflexivity|]. intros Hin. now apply int_sub_exact. }
  split; [exact Hfd|]. split; [exact Hfc|].
  intros Hd Hc. unfold pa. rewrite (Hfd Hd), (Hfc Hc). lia.
Qed.

Lemma V2_compare_neg (a b : V2.ExpEntry) :
  V2.compare a b = int_neg (V2.compare b a).
Proof.
  unfold V2.compare. cbv zeta.
  destruct (Z.eqb_spec (int_sub (V2.score a) (V2.score b)) 0) as [Hs | Hs];
    destruct (Z.eqb_spec (int_sub (V2.score b) (V2.score a)) 0) as [Hs' | Hs'];
    try (apply int_sub_zero_sym in Hs; contradiction);
    try (apply int_sub_zero_sym in Hs'; contradiction);
    cbn [negb].
  - destruct (Z.eqb_spec (int_sub (V2.count a) (V2.count b)) 0) as [Hc | Hc];
      destruct (Z.eqb_spec (int_sub (V2.count b) (V2.count a)) 0)
        as [Hc' | Hc'];
      try (apply int_sub_zero_sym in Hc; contradiction);
      try (apply int_sub_zero_sym in Hc'; contradiction);
      cbn [negb]; symmetry; apply int_neg_sub.
  - symmetry; apply int_neg_sub.
Qed.

Lemma V1_compare_neg (a b : V1.ExpEntry) :
  V1.compare a b = int_neg (V1.compare b a).
Proof.
  unfold V1.compare. cbv zeta.
  set (sa := int_mul (V1.value a) _). set (sb := int_mul (V1.value b) _).
  destruct (Z.eqb_spec (int_sub sa sb) 0) as [Hs | Hs];
    destruct (Z.eqb_spec (int_sub sb sa) 0) as [Hs' | Hs'];
    try (apply int_sub_zero_sym in Hs; contradiction);
    try (apply int_sub_zero_sym in Hs'; contradiction);
    symmetry; apply int_neg_sub.
Qed.

Lemma V2_compare_in_int (a b : V2.ExpEntry) : in_int (V2.compare a b).
Proof.
  unfold V2.compare. cbv zeta.
  repeat match goal with
         | |- context [if ?c then _ else _] => destruct c
         end; apply to_int_range.
Qed.

Lemma V1_compare_in_int (a b : V1.ExpEntry) : in_int (V1.compare a b).
Proof.
  unfold V1.compare. cbv zeta.
  match goal with
  | |- context [if ?c then _ else _] => destruct c
  end; apply to_int_range.
Qed.

(** C3: [compare(a, b) == -compare(b, a)] for every pair of V2 records
    and for every pair of V1 records, the negation being that of C++
    [int]; it is the negation of the integers unless [compare(b, a)]
    is [INT_MIN], the one [int] that has no negative. *)
Theorem compare_antisymmetric :
  (forall a b : V2.ExpEntry,
      V2.compare a b = int_neg (V2.compare b a)
      /\ (V2.compare b a <> INT_MIN -> V2.compare a b = - V2.compare b a))
  /\ (forall a b : V1.ExpEntry,
      V1.compare a b = int_neg (V1.compare b a)
      /\ (V1.compare b a <> INT_MIN -> V1.compare a b = - V1.compare b a)).
Proof.
  split; intros a b.
  - split; [apply V2_compare_neg|].
    intros Hmin. rewrite V2_compare_neg.
    apply int_neg_exact; [apply V2_compare_in_int | exact Hmin].
  - split; [apply V1_compare_neg|].
    intros Hmin. rewrite V1_compare_neg.
    apply int_neg_exact; [apply V1_compare_in_int | exact Hmin].
Qed.

(** *** find *)

Lemma first_with_move_unfold (e : V2.ExpEntry) (nxt : option ExpEntryEx)
  (m : Move) :
  first_with_move (mkExpEntryEx e nxt) m =
    if V2.move e =? m then Some (mkExpEntryEx e nxt)
    else match nxt with
         | Some n => first_with_move n m
         | None => None
         end.
Proof.
  unfold first_with_move. cbn [nodes List.find entry].
  destruct (V2.move e =? m); [reflexivity|].
  destruct nxt; reflexivity.
Qed.

(** [find(m)] returns the first node that holds [m]. *)
Lemma find_is_first_with_move (c : ExpEntryEx) (m : Move) :
  find c m = first_with_move c m.
Proof.
  induction c as [e | e n IH] using ExpEntryEx_chain_ind;
    rewrite first_with_move_unfold; cbn [find];
    destruct (V2.move e =? m); auto.
Qed.

(** [find(mv, minDepth)] is [find(mv)] followed by the depth test. *)
Lemma find_min_is_filtered_find (c : ExpEntryEx) (mv : Move)
  (minDepth : Depth) :
  find_min c mv minDepth =
    match first_with_move c mv with
    | Some r => if V2.depth (entry r) <? minDepth then None else Some r
    | None => None
    end.
Proof.
  induction c as [e | e n IH] using ExpEntryEx_chain_ind;
    rewrite first_with_move_unfold; cbn [find_min];
    destruct (V2.move e =? mv); auto.
Qed.

Lemma first_with_move_absent (c : ExpEntryEx) (m : Move) :
  (forall n, In n (nodes c) -> V2.move (entry n) <> m) ->
  first_with_move c m = None.
Proof.
  intros Hnone. unfold first_with_move.
  destruct (List.find _ (nodes c)) as [r|] eqn:Hf; [|reflexivity].
  apply List.find_some in Hf. destruct Hf as [Hin Heq].
  apply Z.eqb_eq in Heq. now apply Hnone in Hin.
Qed.

(** C5: on any chain, [find(mv, minDepth)] returns null when no node
    of the chain holds [mv], and when the first node that holds [mv]
    has a depth below [minDepth]; it returns that first node exactly
    when its depth is at least [minDepth]. *)
Theorem find_min_depth_gate (c : ExpEntryEx) (mv : Move)
  (minDepth : Depth) :
  ((forall n, In n (nodes c) -> V2.move (entry n) <> mv) ->
   find_min c mv minDepth = None)
  /\ (forall r, first_with_move c mv = Some r ->
       V2.depth (entry r) < minDepth ->
       find_min c mv minDepth = None)
  /\ (forall r, first_with_move c mv = Some r ->
       minDepth <= V2.depth (entry r) ->
       find_min c mv minDepth = Some r)
  /\ (forall r, find_min c mv minDepth = Some r <->
       first_with_move c mv = Some r /\ minDepth <= V2.depth (entry r)).
Proof.
  rewrite find_min_is_filtered_find.
  split; [| split; [| split]].
  - intros Hnone. now rewrite first_with_move_absent.
  - intros r -> Hlt.
    destruct (Z.ltb_spec (V2.depth (entry r)) minDepth); [reflexivity | lia].
  - intros r -> Hge.
    destruct (Z.ltb_spec (V2.depth (entry r)) minDepth); [lia | reflexivity].
  - intros r. destruct (first_with_move c mv) as [f|].
    + destruct (Z.ltb_spec (V2.depth (entry f)) minDepth) as [Hlt | Hge].
      * split; [discriminate|]. intros [Heq Hge].
        injection Heq as ->. lia.
      * split.
        -- intros Heq. injection Heq as ->. split; [reflexivity | exact Hge].
        -- intros [Heq _]. exact Heq.
    + split; [discriminate|]. intros [Heq _]. discriminate.
Qed.

(** *** The constructor of [ExpEntryEx] *)

Example new_count_300 :
  V2.count (entry (new 1 2 3 4 300)) = 44.
Proof. reflexivity. Qed.

(** C8: the constructor of [ExpEntryEx] stores its count argument
    reduced modulo 256, whatever the argument: a record built through
    it never starts with a count above 255, although the field is 16
    bits wide. *)
Theorem new_count_truncated_to_byte (k : Key) (m : Move) (v : Value)
  (d : Depth) (c : Z) :
  V2.count (entry (new k m v d c)) = c mod 256
  /\ 0 <= V2.count (entry (new k m v d c)) <= 255
  /\ V2.key (entry (new k m v d c)) = k
  /\ V2.move (entry (new k m v d c)) = m
  /\ V2.value (entry (new k m v d c)) = v
  /\ V2.depth (entry (new k m v d c)) = d
  /\ next (new k m v d c) = None.
Proof.
  unfold new, V2.new5. cbn [entry next V2.count V2.key V2.move V2.value
                             V2.depth].
  assert (Hbyte := to_u8_range c).
  assert (H16 : to_u16 (to_u8 c) = to_u8 c).
  { apply to_u16_id. unfold UINT16_MAX. lia. }
  rewrite H16.
  repeat split; try reflexivity; lia.
Qed.

End ExperienceFacts.

(** ** engine.cpp: what [set_position] hands to the learning store *)

Module EngineFacts.
Import Experience Learn Engine.

Section Replay.
Context {P : PositionLayer} {L : LearnImpl}.

Lemma replay_nil (e : EngineState) (ld : LearningData) :
  replay e ld [] = mkOutcome e ld [].
Proof. reflexivity. Qed.

Lemma replay_undecodable (e : EngineState) (ld : LearningData)
  (mv : string) (rest : list string) :
  to_move (pos e) mv = Move_none ->
  replay e ld (mv :: rest) = mkOutcome e ld [].
Proof.
  intros H. cbn [replay]. rewrite H, Z.eqb_refl. reflexivity.
Qed.

Lemma replay_decodable (e : EngineState) (ld : LearningData)
  (mv : string) (rest : list string) :
  to_move (pos e) mv <> Move_none ->
  let m := to_move (pos e) mv in
  let plm := replayed_move (pos e) m in
  let ld1 := if replay_records ld
             then add_new_learning ld (key plm) (learningMove plm)
             else ld in
  let r := replay (stepped e m) ld1 rest in
  replay e ld (mv :: rest) =
    mkOutcome (engine r) (LD r)
      ((if replay_records ld then [plm] else []) ++ recorded r).
Proof.
  intros H. cbn [replay].
  destruct (Z.eqb_spec (to_move (pos e) mv) Move_none); [contradiction|].
  reflexivity.
Qed.

(** With the guard closed and kept closed, nothing is handed over. *)
Lemma replay_guard_closed (ld : LearningData) (moves : list string) :
  replay_records ld = false ->
  forall e, recorded (replay e ld moves) = [] /\ LD (replay e ld moves) = ld.
Proof.
  intros Hg. induction moves as [| mv rest IH]; intros e.
  - split; reflexivity.
  - destruct (Z.eq_dec (to_move (pos e) mv) Move_none) as [Hn | Hn].
    + rewrite replay_undecodable by exact Hn. split; reflexivity.
    + rewrite replay_decodable by exact Hn. cbv zeta. rewrite Hg.
      cbn [recorded LD app]. apply IH.
Qed.




(** Where a record of the log comes from. *)
Lemma recorded_origin (moves : list string) :
  forall e ld plm,
    In plm (recorded (replay e ld moves)) ->
    exists pre mv post,
      moves = pre ++ mv :: post
      /\ List.length (decoded (pos e) pre) = List.length pre
      /\ to_move (pos (engine (replay e ld pre))) mv <> Move_none
      /\ plm = replayed_move (pos (engine (replay e ld pre)))
                 (to_move (pos (engine (replay e ld pre))) mv).
Proof.
  induction moves as [| mv0 rest IH]; intros e ld plm Hin.
  - destruct Hin.
  - destruct (Z.eq_dec (to_move (pos e) mv0) Move_none) as [Hn | Hn].
    + rewrite replay_undecodable in Hin by exact Hn. destruct Hin.
    + rewrite replay_decodable in Hin by exact Hn. cbv zeta in Hin.
      cbn [recorded] in Hin. apply in_app_or in Hin.
      destruct Hin as [Hhere | Hlater].
      * exists [], mv0, rest. rewrite replay_nil. cbn [engine].
        repeat split; [exact Hn|].
        destruct (replay_records ld); [| destruct Hhere].
        destruct Hhere as [<- | []]. reflexivity.
      * apply IH in Hlater.
        destruct Hlater as (pre & mv & post & -> & Hlen & Hdec & ->).
        exists (mv0 :: pre), mv, post.
        rewrite replay_decodable by exact Hn. cbv zeta. cbn [engine].
        repeat split.
        -- cbn [decoded List.length].
           destruct (Z.eqb_spec (to_move (pos e) mv0) Move_none);
             [contradiction|].
           cbn [List.length]. f_equal. exact Hlen.
        -- exact Hdec.
Qed.

(** The loop ends at the first move that does not decode. *)
Lemma replay_stops (pre : list string) (bad : string)
  (post : list string) :
  forall e ld,
    to_move (pos (engine (replay e ld pre))) bad = Move_none ->
    replay e ld (pre ++ bad :: post) = replay e ld pre.
Proof.
  induction pre as [| mv0 pre IH]; intros e ld Hbad.
  - rewrite replay_nil in *. cbn [engine] in Hbad.
    now apply replay_undecodable.
  - cbn [app].
    destruct (Z.eq_dec (to_move (pos e) mv0) Move_none) as [Hn | Hn].
    + now rewrite !replay_undecodable by exact Hn.
    + rewrite replay_decodable in Hbad by exact Hn.
      cbv zeta in Hbad. cbn [engine] in Hbad.
      rewrite !replay_decodable by exact Hn. cbv zeta.
      now rewrite IH by exact Hbad.
Qed.

(** C9: every record that [set_position] hands to
    [LD.add_new_learning] has depth 0, score [VALUE_NONE] and
    performance 100; its move is a move of the list that decoded,
    and its key is the key of the position reached by the moves
    before it, that is, before the move itself is made.  The replay
    ends at the first move that does not decode: what follows it has
    no effect. *)
Theorem replayed_record_fields (e : EngineState) (ld : LearningData)
  (fen : string) (moves : list string) :
  (forall plm,
      In plm (recorded (set_position e ld fen moves)) ->
      depth (learningMove plm) = 0
      /\ score (learningMove plm) = VALUE_NONE
      /\ performance (learningMove plm) = 100
      /\ exists pre mv post,
           moves = pre ++ mv :: post
           /\ List.length (decoded (pos_set fen (UCI_Chess960 e)) pre)
              = List.length pre
           /\ move (learningMove plm)
              = to_move (pos (engine (set_position e ld fen pre))) mv
           /\ move (learningMove plm) <> Move_none
           /\ key plm = pos_key (pos (engine (set_position e ld fen pre))))
  /\ (forall pre bad post,
         moves = pre ++ bad :: post ->
         to_move (pos (engine (set_position e ld fen pre))) bad
         = Move_none ->
         set_position e ld fen moves = set_position e ld fen pre).
Proof.
  unfold set_position. split.
  - intros plm Hin. apply recorded_origin in Hin.
    destruct Hin as (pre & mv & post & Hmoves & Hlen & Hdec & ->).
    cbn [replayed_move learningMove key depth score performance move].
    repeat split.
    exists pre, mv, post. cbn [pos] in Hlen. auto.
  - intros pre bad post -> Hbad. now apply replay_stops.
Qed.

End Replay.

End EngineFacts.

(** ** The write gates of the learning store *)

Module GateFacts.
Import Experience Learn LearnSpec Engine EngineFacts.

Section AnyStore.
Context {P : PositionLayer} {L : LearnImpl}.

(** A store on which [add_new_learning] does nothing stays as it is
    through a whole replay. *)
Lemma replay_store_fixed (ld : LearningData) (moves : list string) :
  (forall k lm, add_new_learning ld k lm = ld) ->
  forall e, LD (replay e ld moves) = ld.
Proof.
  intros Hinert. induction moves as [| mv rest IH]; intros e.
  - reflexivity.
  - destruct (Z.eq_dec (to_move (pos e) mv) Move_none) as [Hn | Hn].
    + now rewrite replay_undecodable by exact Hn.
    + rewrite replay_decodable by exact Hn. cbv zeta. cbn [LD].
      rewrite Hinert. destruct (replay_records ld); apply IH.
Qed.

End AnyStore.

Lemma write_allowed_iff (ld : LearningData) :
  write_allowed ld = true <->
  is_enabled ld = true /\ is_paused ld = false /\ is_readonly ld = false.
Proof.
  unfold write_allowed.
  rewrite !andb_true_iff, !negb_true_iff. tauto.
Qed.

Lemma gate_closed (ld : LearningData) :
  is_enabled ld = false \/ is_paused ld = true \/ is_readonly ld = true ->
  write_allowed ld = false.
Proof.
  intros Hg. destruct (write_allowed ld) eqn:Hw; [|reflexivity].
  apply write_allowed_iff in Hw. destruct Hw as (He & Hp & Hr).
  destruct Hg as [Hg | [Hg | Hg]]; congruence.
Qed.

Lemma insert_or_update_suppressed (ld : LearningData) (k : Key)
  (lm : LearningMove) :
  write_allowed ld = false -> insert_or_update ld k lm = ld.
Proof.
  intros Hw. unfold insert_or_update. now rewrite Hw.
Qed.


(** The guard of [set_position] does not read the read-only flag: in
    read-only mode the moves are still handed to [add_new_learning]. *)
Remark replay_guard_ignores_readonly {P : PositionLayer}
  (ld : LearningData) (ro : bool) :
  replay_records (L := spec_impl) (set_readonly ld ro)
  = replay_records (L := spec_impl) ld.
Proof. reflexivity. Qed.

(** A paused store ignores an observation; once resumed the same
    observation is found in it. *)
Example paused_then_resumed :
  let lm := mkLearningMove 5 10 796 100 in
  HT (add_new_learning (LearnImpl := spec_impl)
        (mkLearningData true false false Standard []) 42 lm) = []
  /\ HT (add_new_learning (LearnImpl := spec_impl)
           (mkLearningData false false false Standard []) 42 lm)
     = [(42, lm)].
Proof. split; reflexivity. Qed.

(** C2: a write to the learning store takes effect only when the mode
    is not [Off], the store is not paused and it is not read-only.
    Each of the three gates alone suppresses the write and leaves the
    store as it was, without an error; in particular the store is
    unchanged after [set_position] has replayed a move list while it is
    read-only (or paused, or off). *)
Theorem store_write_needs_all_gates {P : PositionLayer} :
  (forall ld k lm,
      add_new_learning (LearnImpl := spec_impl) ld k lm <> ld ->
      is_enabled ld = true /\ is_paused ld = false
      /\ is_readonly ld = false)
  /\ (forall ld k lm,
        is_enabled ld = false \/ is_paused ld = true
        \/ is_readonly ld = true ->
        add_new_learning (LearnImpl := spec_impl) ld k lm = ld)
  /\ (forall e ld fen moves,
        is_enabled ld = false \/ is_paused ld = true
        \/ is_readonly ld = true ->
        LD (set_position (L := spec_impl) e ld fen moves) = ld).
Proof.
  assert (Hno : forall ld k lm,
             is_enabled ld = false \/ is_paused ld = true
             \/ is_readonly ld = true ->
             add_new_learning (LearnImpl := spec_impl) ld k lm = ld).
  { intros ld k lm Hg. cbn [add_new_learning spec_impl].
    apply insert_or_update_suppressed. now apply gate_closed. }
  split; [| split].
  - intros ld k lm Hchanged. apply write_allowed_iff.
    destruct (write_allowed ld) eqn:Hw; [reflexivity|].
    exfalso. apply Hchanged. cbn [add_new_learning spec_impl].
    now apply insert_or_update_suppressed.
  - exact Hno.
  - intros e ld fen moves Hg. unfold set_position.
    apply replay_store_fixed. intros k lm. now apply Hno.
Qed.

End GateFacts.

(** ** evaluate.cpp: the final clamp *)

Module EvalFacts.
Import CInt CIntFacts Eval.

Section WithLayer.
Context {E : EvalLayer}.

(** In check the assertion at the head of [evaluate] fails. *)
Lemma evaluate_in_check (pos : Position) :
  checkers pos <> 0 -> evaluate pos = None.
Proof.
  intros Hc. unfold evaluate.
  destruct (Z.eqb_spec (checkers pos) 0); [contradiction | reflexivity].
Qed.

(** Out of check [evaluate] is a clamped value. *)
Lemma evaluate_is_clamped (pos : Position) :
  checkers pos = 0 ->
  exists raw,
    evaluate pos =
      Some (clamp raw (int_add VALUE_TB_LOSS_IN_MAX_PLY 1)
              (int_sub VALUE_TB_WIN_IN_MAX_PLY 1)).
Proof.
  intros Hc. unfold evaluate. rewrite Hc. cbn [Z.eqb negb].
  cbv zeta.
  destruct (if int_abs (simple_eval pos (side_to_move pos))
               >? SmallNetThreshold
            then _ else _) as [nnue nnueComplexity].
  eexists. reflexivity.
Qed.

(** C10: for a position that is not in check, [evaluate] returns a
    value [v] with
    [VALUE_TB_LOSS_IN_MAX_PLY + 1 <= v <= VALUE_TB_WIN_IN_MAX_PLY - 1],
    whatever the network, the material and the optimism are; the two
    bounds are [int] constants with the lower one not above the upper
    one, as [std::clamp] requires. *)
Theorem evaluate_outside_tablebase_range (pos : Position) :
  checkers pos = 0 ->
  in_int VALUE_TB_LOSS_IN_MAX_PLY -> in_int VALUE_TB_WIN_IN_MAX_PLY ->
  VALUE_TB_LOSS_IN_MAX_PLY + 1 <= VALUE_TB_WIN_IN_MAX_PLY - 1 ->
  exists v,
    evaluate pos = Some v
    /\ VALUE_TB_LOSS_IN_MAX_PLY + 1 <= v <= VALUE_TB_WIN_IN_MAX_PLY - 1.
Proof.
  intros Hc Hlo Hhi Horder.
  destruct (evaluate_is_clamped pos Hc) as [raw ->].
  eexists. split; [reflexivity|].
  rewrite int_add_exact, int_sub_exact
    by (unfold in_int, INT_MIN, INT_MAX in *; lia).
  now apply clamp_bounds.
Qed.

End WithLayer.

End EvalFacts.

(** ** The theorems at concrete inputs *)

Module Instances.
Import CInt CIntFacts Experience Learn LearnSpec Engine Samples.
Import ExperienceFacts EngineFacts GateFacts EvalFacts.

Ltac by_computation := vm_compute; intro; discriminate.

Ltac sample_wf := repeat split; by_computation.

(** Equal depths: the values 50 and 70 average to 60, the counts add
    up. *)
Lemma merge_count_depth_value_at_equal_depth :
  exists r,
    V2.merge obs50 obs70 = Some r
    /\ V2.count r = 2 /\ V2.depth r = 10 /\ V2.value r = 60.
Proof.
  destruct (merge_count_depth_value obs50 obs70)
    as (r & Hm & Hc & Hd & _ & Heq & _);
    [sample_wf | sample_wf | reflexivity | reflexivity |].
  exists r. split; [exact Hm|].
  destruct (Heq eq_refl) as [_ Hexact].
  rewrite Hc, Hd, Hexact; [| split; by_computation].
  repeat split; reflexivity.
Defined.

(** A depth-10 and a depth-12 observation merge to the same record in
    either order. *)
Lemma merge_order_insensitive_at_depths_10_12 :
  exists r1 r2,
    V2.merge obs50 obs_deep = Some r1 /\ V2.merge obs_deep obs50 = Some r2
    /\ V2.value r1 = V2.value r2
    /\ V2.depth r1 = V2.depth r2
    /\ V2.count r1 = V2.count r2.
Proof.
  apply (merge_order_insensitive_when_deeper obs50 obs_deep);
    [reflexivity | reflexivity | by_computation].
Defined.

(** [-20 * 2 * 2 - 50 * 1 * 1]. *)
Lemma compare_by_score_at_samples : V2.compare obs_other obs50 = -130.
Proof.
  assert (Hwa : V2.wf obs_other) by sample_wf.
  assert (Hwb : V2.wf obs50) by sample_wf.
  apply (proj1 (proj2
           (compare_score_then_count_then_depth obs_other obs50 Hwa Hwb))).
  by_computation.
Defined.

Lemma compare_antisymmetric_at_samples :
  V2.compare obs50 obs70 = - V2.compare obs70 obs50.
Proof.
  apply (proj2 (proj1 compare_antisymmetric obs50 obs70)).
  by_computation.
Defined.

(** The move 796 sits second in the chain at depth 12: found with a
    minimum depth of 12, not with 13. *)
Lemma find_min_depth_gate_at_chain2 :
  find_min chain2 796 12 = Some (mkExpEntryEx obs_deep None)
  /\ find_min chain2 796 13 = None.
Proof.
  split.
  - apply (proj1 (proj2 (proj2 (find_min_depth_gate chain2 796 12))));
      [reflexivity | by_computation].
  - apply (proj1 (proj2 (find_min_depth_gate chain2 796 13))
             (mkExpEntryEx obs_deep None));
      [reflexivity | reflexivity].
Defined.

Open Scope string_scope.

(** The replay of e2e4, zzzz, e7e5 ends at zzzz, and what it records
    has the fixed fields. *)
Lemma replayed_record_fields_at_bad_move :
  set_position (L := spec_impl) toy_engine ld_standard "startpos"
    ["e2e4"; "zzzz"; "e7e5"]
  = set_position (L := spec_impl) toy_engine ld_standard "startpos"
      ["e2e4"]
  /\ Forall
       (fun plm =>
          depth (learningMove plm) = 0
          /\ score (learningMove plm) = 32002
          /\ performance (learningMove plm) = 100)
       (recorded
          (set_position (L := spec_impl) toy_engine ld_standard "startpos"
             ["e2e4"; "zzzz"; "e7e5"])).
Proof.
  split.
  - apply (proj2 (replayed_record_fields (L := spec_impl) toy_engine
                    ld_standard "startpos" ["e2e4"; "zzzz"; "e7e5"])
             ["e2e4"] "zzzz" ["e7e5"]);
      reflexivity.
  - apply Forall_forall. intros plm Hin.
    destruct (proj1 (replayed_record_fields (L := spec_impl) toy_engine
                       ld_standard "startpos" ["e2e4"; "zzzz"; "e7e5"])
                plm Hin)
      as (Hd & Hs & Hp & _).
    exact (conj Hd (conj Hs Hp)).
Defined.

(** A read-only store after a replay: the move was handed over, the
    store is as before. *)
Lemma store_write_needs_all_gates_at_readonly :
  recorded
    (set_position (L := spec_impl) toy_engine ld_readonly "startpos"
       ["e2e4"])
  = [ mkPersistedLearningMove 1000 (mkLearningMove 0 32002 796 100) ]
  /\ LD
       (set_position (L := spec_impl) toy_engine ld_readonly "startpos"
          ["e2e4"])
     = ld_readonly.
Proof.
  split; [reflexivity|].
  apply (proj2 (proj2 store_write_needs_all_gates) toy_engine ld_readonly
           "startpos" ["e2e4"]).
  right; right; reflexivity.
Defined.

Close Scope string_scope.

(** A network value far above the tablebase range is brought back
    under it. *)
Lemma evaluate_outside_tablebase_range_at_huge_nnue :
  exists v,
    Eval.evaluate (E := toy_eval) (2000000, 0) = Some v
    /\ -31508 + 1 <= v <= 31508 - 1.
Proof.
  apply (evaluate_outside_tablebase_range (E := toy_eval) (2000000, 0)).
  - reflexivity.
  - split; by_computation.
  - split; by_computation.
  - by_computation.
Defined.

End Instances.

(** ** experience.h: further properties of merge, compare and find *)

Module ExperienceMore.
Import CInt CIntFacts WrapFacts Experience Ranges ExperienceFacts.

(** *** merge *)

Lemma V2_merge_none_iff (a b : V2.ExpEntry) :
  V2.merge a b = None <-> V2.key a <> V2.key b \/ V2.move a <> V2.move b.
Proof.
  unfold V2.merge.
  destruct (Z.eqb_spec (V2.key a) (V2.key b)) as [Hk | Hk]; cbn [negb].
  - destruct (Z.eqb_spec (V2.move a) (V2.move b)) as [Hm | Hm]; cbn [negb].
    + split; [| intros [H | H]; contradiction].
      cbv zeta.
      destruct (V2.depth a >? V2.depth b); [discriminate|].
      destruct (V2.depth a =? V2.depth b); discriminate.
    + split; [right; exact Hm | reflexivity].
  - split; [left; exact Hk | reflexivity].
Qed.

(** A successful merge, spelled out. *)
Lemma V2_merge_some (a b r : V2.ExpEntry) :
  V2.merge a b = Some r ->
  V2.key a = V2.key b /\ V2.move a = V2.move b
  /\ r = V2.mkExpEntry (V2.key a) (V2.move a)
          (if V2.depth a >? V2.depth b then V2.value a
           else if V2.depth a =? V2.depth b
                then int_div (int_add (V2.value a) (V2.value b)) 2
                else V2.value b)
          (if V2.depth a >? V2.depth b then V2.depth a
           else if V2.depth a =? V2.depth b then V2.depth a
                else V2.depth b)
          (V2.merge_count (V2.count a) (V2.count b)).
Proof.
  intros Hm.
  destruct (Z.eq_dec (V2.key a) (V2.key b)) as [Hk | Hk].
  - destruct (Z.eq_dec (V2.move a) (V2.move b)) as [Hmv | Hmv].
    + split; [exact Hk|]. split; [exact Hmv|].
      rewrite (merge_asserts_pass a b Hk Hmv) in Hm. cbv zeta in Hm.
      destruct (V2.depth a >? V2.depth b);
        [| destruct (V2.depth a =? V2.depth b)];
        injection Hm as <-; reflexivity.
    + assert (V2.merge a b = None) by (apply V2_merge_none_iff; now right).
      congruence.
  - assert (V2.merge a b = None) by (apply V2_merge_none_iff; now left).
    congruence.
Qed.

(** X2: [merge] keeps records well-formed: merging two records whose
    fields are within the ranges of their C++ types gives a record
    within those ranges, with the key and the move of the existing
    record. *)
Theorem merge_keeps_well_formed (a b r : V2.ExpEntry) :
  V2.wf a -> V2.wf b -> V2.merge a b = Some r ->
  V2.wf r /\ V2.key r = V2.key a /\ V2.move r = V2.move a.
Proof.
  intros (Hka & Hva & Hda & Hca) (Hkb & Hvb & Hdb & Hcb) Hm.
  apply V2_merge_some in Hm. destruct Hm as (_ & _ & ->).
  cbn [V2.key V2.move]. split; [| split; reflexivity].
  unfold V2.wf. cbn [V2.key V2.value V2.depth V2.count].
  rewrite (merge_count_saturates _ _ Hca Hcb).
  split; [exact Hka|]. split; [| split].
  - destruct (V2.depth a >? V2.depth b); [exact Hva|].
    destruct (V2.depth a =? V2.depth b); [| exact Hvb].
    unfold int_div. apply to_int_range.
  - destruct (V2.depth a >? V2.depth b); [exact Hda|].
    destruct (V2.depth a =? V2.depth b); assumption.
  - unfold UINT16_MAX in *. lia.
Qed.

(** X3: [merge] never lowers the depth or the count of the existing
    record: the merged depth is one of the two depths and at least
    both, the merged count is at least both counts, and a count that
    has reached 65535 stays there. *)
Theorem merge_depth_count_monotone (a b r : V2.ExpEntry) :
  V2.wf a -> V2.wf b -> V2.merge a b = Some r ->
  V2.depth a <= V2.depth r /\ V2.depth b <= V2.depth r
  /\ (V2.depth r = V2.depth a \/ V2.depth r = V2.depth b)
  /\ V2.count a <= V2.count r /\ V2.count b <= V2.count r
  /\ V2.count r <= 65535
  /\ (V2.count a = 65535 \/ V2.count b = 65535 -> V2.count r = 65535).
Proof.
  intros (_ & _ & _ & Hca) (_ & _ & _ & Hcb) Hm.
  apply V2_merge_some in Hm. destruct Hm as (_ & _ & ->).
  cbn [V2.depth V2.count].
  rewrite (merge_count_saturates _ _ Hca Hcb).
  unfold UINT16_MAX in *.
  destruct (Z.gtb_spec (V2.depth a) (V2.depth b));
    [| destruct (Z.eqb_spec (V2.depth a) (V2.depth b))];
    repeat split; try lia.
Qed.

Lemma int_add_comm (x y : Z) : int_add x y = int_add y x.
Proof. unfold int_add. now rewrite Z.add_comm. Qed.

(** X4: merging two records is insensitive to which of them is the
    existing one and which the incoming one, in every case: with
    different depths the deeper one wins either way, with equal depths
    the average is symmetric, the counts add up either way, and a
    mismatch of key or move fails either way. *)
Theorem merge_commutes (a b : V2.ExpEntry) :
  V2.merge a b = V2.merge b a.
Proof.
  destruct (Z.eq_dec (V2.key a) (V2.key b)) as [Hk | Hk].
  - destruct (Z.eq_dec (V2.move a) (V2.move b)) as [Hm | Hm].
    + rewrite (merge_asserts_pass a b Hk Hm).
      rewrite (merge_asserts_pass b a (eq_sym Hk) (eq_sym Hm)). cbv zeta.
      rewrite (merge_count_comm (V2.count b) (V2.count a)).
      rewrite (int_add_comm (V2.value b) (V2.value a)).
      rewrite <- Hk, <- Hm.
      destruct (Z.gtb_spec (V2.depth a) (V2.depth b)) as [Hab | Hab];
        destruct (Z.gtb_spec (V2.depth b) (V2.depth a)) as [Hba | Hba];
        try lia.
      * destruct (Z.eqb_spec (V2.depth b) (V2.depth a)); [lia | reflexivity].
      * destruct (Z.eqb_spec (V2.depth a) (V2.depth b)); [lia | reflexivity].
      * destruct (Z.eqb_spec (V2.depth a) (V2.depth b)) as [He | He];
          destruct (Z.eqb_spec (V2.depth b) (V2.depth a)) as [He' | He'];
          try lia.
        now rewrite He.
    + transitivity (@None V2.ExpEntry);
        [| symmetry]; apply V2_merge_none_iff; right; congruence.
  - transitivity (@None V2.ExpEntry);
      [| symmetry]; apply V2_merge_none_iff; left; congruence.
Qed.

(** X5: three observations of one move merged one after the other:
    the count is the saturating sum of the three counts and the depth
    the largest of the three depths whichever two are merged first,
    and when the third is strictly the deepest its value is the
    result's value in both groupings. *)
Theorem merge_three_count_depth (a b c : V2.ExpEntry) :
  V2.wf a -> V2.wf b -> V2.wf c ->
  V2.key a = V2.key b -> V2.key b = V2.key c ->
  V2.move a = V2.move b -> V2.move b = V2.move c ->
  exists ab r1 bc r2,
    V2.merge a b = Some ab /\ V2.merge ab c = Some r1
    /\ V2.merge b c = Some bc /\ V2.merge a bc = Some r2
    /\ V2.count r1 = Z.min (V2.count a + V2.count b + V2.count c) 65535
    /\ V2.count r2 = V2.count r1
    /\ V2.depth r1 = Z.max (Z.max (V2.depth a) (V2.depth b)) (V2.depth c)
    /\ V2.depth r2 = V2.depth r1
    /\ (V2.depth a < V2.depth c -> V2.depth b < V2.depth c ->
        V2.value r1 = V2.value c /\ V2.value r2 = V2.value c).
Proof.
  intros Ha Hb Hc Hkab Hkbc Hmab Hmbc.
  destruct (V2.merge a b) as [ab|] eqn:Eab;
    [| apply V2_merge_none_iff in Eab; destruct Eab; contradiction].
  destruct (V2.merge b c) as [bc|] eqn:Ebc;
    [| apply V2_merge_none_iff in Ebc; destruct Ebc; contradiction].
  destruct (V2_merge_some a b ab Eab) as (_ & _ & Rab).
  destruct (V2_merge_some b c bc Ebc) as (_ & _ & Rbc).
  assert (Hk1 : V2.key ab = V2.key a) by (rewrite Rab; reflexivity).
  assert (Hm1 : V2.move ab = V2.move a) by (rewrite Rab; reflexivity).
  assert (Hk2 : V2.key bc = V2.key b) by (rewrite Rbc; reflexivity).
  assert (Hm2 : V2.move bc = V2.move b) by (rewrite Rbc; reflexivity).
  destruct (V2.merge ab c) as [r1|] eqn:E1;
    [| apply V2_merge_none_iff in E1; destruct E1; congruence].
  destruct (V2.merge a bc) as [r2|] eqn:E2;
    [| apply V2_merge_none_iff in E2; destruct E2; congruence].
  exists ab, r1, bc, r2.
  split; [reflexivity|]. split; [exact E1|].
  split; [reflexivity|]. split; [exact E2|].
  apply V2_merge_some in E1, E2.
  destruct E1 as (_ & _ & E1), E2 as (_ & _ & E2).
  destruct Ha as (_ & _ & _ & Hca), Hb as (_ & _ & _ & Hcb),
           Hc as (_ & _ & _ & Hcc).
  assert (Cab : V2.count ab = Z.min (V2.count a + V2.count b) 65535).
  { rewrite Rab. cbn [V2.count]. now apply merge_count_saturates. }
  assert (Cbc : V2.count bc = Z.min (V2.count b + V2.count c) 65535).
  { rewrite Rbc. cbn [V2.count]. now apply merge_count_saturates. }
  assert (Hcab : 0 <= V2.count ab <= UINT16_MAX)
    by (unfold UINT16_MAX in *; lia).
  assert (Hcbc : 0 <= V2.count bc <= UINT16_MAX)
    by (unfold UINT16_MAX in *; lia).
  assert (C1 : V2.count r1 = Z.min (V2.count ab + V2.count c) 65535).
  { rewrite E1. cbn [V2.count]. now apply merge_count_saturates. }
  assert (C2 : V2.count r2 = Z.min (V2.count a + V2.count bc) 65535).
  { rewrite E2. cbn [V2.count]. now apply merge_count_saturates. }
  assert (Dab : V2.depth ab = Z.max (V2.depth a) (V2.depth b)).
  { rewrite Rab. cbn [V2.depth].
    destruct (Z.gtb_spec (V2.depth a) (V2.depth b));
      [| destruct (Z.eqb_spec (V2.depth a) (V2.depth b))]; lia. }
  assert (Dbc : V2.depth bc = Z.max (V2.depth b) (V2.depth c)).
  { rewrite Rbc. cbn [V2.depth].
    destruct (Z.gtb_spec (V2.depth b) (V2.depth c));
      [| destruct (Z.eqb_spec (V2.depth b) (V2.depth c))]; lia. }
  assert (D1 : V2.depth r1 = Z.max (V2.depth ab) (V2.depth c)).
  { rewrite E1. cbn [V2.depth].
    destruct (Z.gtb_spec (V2.depth ab) (V2.depth c));
      [| destruct (Z.eqb_spec (V2.depth ab) (V2.depth c))]; lia. }
  assert (D2 : V2.depth r2 = Z.max (V2.depth a) (V2.depth bc)).
  { rewrite E2. cbn [V2.depth].
    destruct (Z.gtb_spec (V2.depth a) (V2.depth bc));
      [| destruct (Z.eqb_spec (V2.depth a) (V2.depth bc))]; lia. }
  unfold UINT16_MAX in *.
  split; [lia|]. split; [lia|]. split; [lia|]. split; [lia|].
  intros Hac Hbc'.
  assert (Vbc : V2.value bc = V2.value c).
  { rewrite Rbc. cbn [V2.value].
    destruct (Z.gtb_spec (V2.depth b) (V2.depth c)); [lia|].
    destruct (Z.eqb_spec (V2.depth b) (V2.depth c)); [lia | reflexivity]. }
  split.
  - rewrite E1. cbn [V2.value].
    destruct (Z.gtb_spec (V2.depth ab) (V2.depth c)); [lia|].
    destruct (Z.eqb_spec (V2.depth ab) (V2.depth c)); [lia | reflexivity].
  - rewrite E2. cbn [V2.value].
    destruct (Z.gtb_spec (V2.depth a) (V2.depth bc)); [lia|].
    destruct (Z.eqb_spec (V2.depth a) (V2.depth bc)); [lia | exact Vbc].
Qed.

(** X6: on key, move, value and depth the V2 [merge] is the V1
    [merge]: dropping the count before merging or after gives the same
    V1 record, and the two versions fail on the same pairs. *)
Theorem merge_V2_agrees_with_V1 (a b : V2.ExpEntry) :
  let old := fun e : V2.ExpEntry =>
    V1.mkExpEntry (V2.key e) (V2.move e) (V2.value e) (V2.depth e) in
  V1.merge (old a) (old b) = option_map old (V2.merge a b).
Proof.
  intros old. unfold V1.merge, V2.merge, old.
  cbn [V1.key V1.move V1.value V1.depth].
  destruct (V2.key a =? V2.key b); cbn [negb option_map]; [| reflexivity].
  destruct (V2.move a =? V2.move b); cbn [negb option_map]; [| reflexivity].
  cbv zeta.
  destruct (V2.depth a >? V2.depth b); [reflexivity|].
  destruct (V2.depth a =? V2.depth b); reflexivity.
Qed.

(** X7: observing the very same record again changes nothing but the
    count, which doubles up to the cap, provided twice the value is
    representable as an [int] (the average is formed from the sum). *)
Theorem merge_with_itself (a : V2.ExpEntry) :
  V2.wf a -> in_int (2 * V2.value a) ->
  V2.merge a a =
    Some (V2.mkExpEntry (V2.key a) (V2.move a) (V2.value a) (V2.depth a)
            (Z.min (2 * V2.count a) 65535)).
Proof.
  intros (_ & _ & _ & Hc) Hv.
  rewrite (merge_asserts_pass a a eq_refl eq_refl). cbv zeta.
  rewrite (merge_count_saturates _ _ Hc Hc).
  destruct (Z.gtb_spec (V2.depth a) (V2.depth a)); [lia|].
  rewrite Z.eqb_refl.
  rewrite average_exact by (replace (V2.value a + V2.value a)
                              with (2 * V2.value a) by lia; exact Hv).
  replace (V2.value a + V2.value a) with (V2.value a * 2) by lia.
  rewrite Z.quot_mul by lia.
  replace (V2.count a + V2.count a) with (2 * V2.count a) by lia.
  reflexivity.
Qed.

(** *** compare *)

Lemma int_sub_zero_iff (x y : Z) :
  in_int x -> in_int y -> (int_sub x y = 0 <-> x = y).
Proof. intros Hx Hy. split; intros H; wrap_arith. Qed.

Lemma count_in_int (e : V2.ExpEntry) : V2.wf e -> in_int (V2.count e).
Proof.
  intros (_ & _ & _ & Hc).
  unfold in_int, INT_MIN, INT_MAX, UINT16_MAX in *. lia.
Qed.

Lemma V2_score_in_int (e : V2.ExpEntry) : in_int (V2.score e).
Proof. unfold V2.score, int_mul. apply to_int_range. Qed.

Lemma V2_compare_zero_iff (a b : V2.ExpEntry) :
  V2.wf a -> V2.wf b ->
  (V2.compare a b = 0 <->
   V2.score a = V2.score b /\ V2.count a = V2.count b
   /\ V2.depth a = V2.depth b).
Proof.
  intros Ha Hb.
  pose proof (int_sub_zero_iff _ _ (V2_score_in_int a) (V2_score_in_int b))
    as Hs.
  pose proof (int_sub_zero_iff _ _ (count_in_int a Ha) (count_in_int b Hb))
    as Hc.
  assert (Hd : int_sub (V2.depth a) (V2.depth b) = 0
               <-> V2.depth a = V2.depth b).
  { destruct Ha as (_ & _ & Hda & _), Hb as (_ & _ & Hdb & _).
    now apply int_sub_zero_iff. }
  unfold V2.compare. cbv zeta.
  destruct (Z.eqb_spec (int_sub (V2.score a) (V2.score b)) 0) as [Es | Es];
    cbn [negb].
  - destruct (Z.eqb_spec (int_sub (V2.count a) (V2.count b)) 0) as [Ec | Ec];
      cbn [negb]; tauto.
  - tauto.
Qed.

Lemma V1_compare_zero_iff (a b : V1.ExpEntry) :
  in_int (V1.depth a) -> in_int (V1.depth b) ->
  (V1.compare a b = 0 <->
   int_mul (V1.value a) (Z.max (int_div (V1.depth a) 5) 1)
   = int_mul (V1.value b) (Z.max (int_div (V1.depth b) 5) 1)
   /\ V1.depth a = V1.depth b).
Proof.
  intros Ha Hb. unfold V1.compare. cbv zeta.
  set (sa := int_mul (V1.value a) _). set (sb := int_mul (V1.value b) _).
  assert (Hs : int_sub sa sb = 0 <-> sa = sb).
  { apply int_sub_zero_iff; apply to_int_range. }
  pose proof (int_sub_zero_iff _ _ Ha Hb) as Hd.
  destruct (Z.eqb_spec (int_sub sa sb) 0); tauto.
Qed.

(** X8: [compare] returns 0 only on a complete tie: for well-formed V2
    records exactly when the two primary scores (as computed), the two
    counts and the two depths are equal, and for V1 records exactly
    when the two scores and the two depths are equal.  In particular a
    record compares equal to itself. *)
Theorem compare_zero_only_on_tie :
  (forall a b : V2.ExpEntry,
      V2.wf a -> V2.wf b ->
      (V2.compare a b = 0 <->
       V2.score a = V2.score b /\ V2.count a = V2.count b
       /\ V2.depth a = V2.depth b))
  /\ (forall a b : V1.ExpEntry,
        in_int (V1.depth a) -> in_int (V1.depth b) ->
        (V1.compare a b = 0 <->
         int_mul (V1.value a) (Z.max (int_div (V1.depth a) 5) 1)
         = int_mul (V1.value b) (Z.max (int_div (V1.depth b) 5) 1)
         /\ V1.depth a = V1.depth b))
  /\ (forall a : V2.ExpEntry, V2.wf a -> V2.compare a a = 0).
Proof.
  split; [| split].
  - intros a b Ha Hb. now apply V2_compare_zero_iff.
  - intros a b Ha Hb. now apply V1_compare_zero_iff.
  - intros a Ha. apply V2_compare_zero_iff; auto.
Qed.

(** The exact value of [compare] on modest records. *)
Lemma V2_compare_exact (a b : V2.ExpEntry) :
  V2.wf a -> V2.wf b -> modest a -> modest b ->
  let pa := V2.value a * Z.max (V2.depth a ÷ 10) 1
            * Z.max (V2.count a ÷ 3) 1 in
  let pb := V2.value b * Z.max (V2.depth b ÷ 10) 1
            * Z.max (V2.count b ÷ 3) 1 in
  V2.compare a b =
    if negb (pa - pb =? 0) then pa - pb
    else if negb (V2.count a - V2.count b =? 0)
         then V2.count a - V2.count b
         else V2.depth a - V2.depth b.
Proof.
  intros Ha Hb [Hpa Hda] [Hpb Hdb] pa pb.
  unfold V2.compare. cbv zeta.
  rewrite (V2_primary_wrapped a b Ha Hb).
  rewrite (V2_count_diff_exact a b Ha Hb).
  fold pa pb. fold pa in Hpa. fold pb in Hpb.
  change (2 ^ 30) with 1073741824 in *.
  rewrite (to_int_id (pa - pb))
    by (unfold in_int, INT_MIN, INT_MAX; lia).
  rewrite (int_sub_exact (V2.depth a) (V2.depth b))
    by (unfold in_int, INT_MIN, INT_MAX; lia).
  reflexivity.
Qed.

(** X9: on well-formed records whose primary scores and depths lie
    between [-2^30] and [2^30 - 1], [compare] orders consistently:
    if [a] ranks above [b] and [b] above [c] then [a] ranks above [c],
    and the same holds for "not below". *)
Theorem compare_transitive (a b c : V2.ExpEntry) :
  V2.wf a -> V2.wf b -> V2.wf c ->
  modest a -> modest b -> modest c ->
  (0 < V2.compare a b -> 0 < V2.compare b c -> 0 < V2.compare a c)
  /\ (0 <= V2.compare a b -> 0 <= V2.compare b c -> 0 <= V2.compare a c).
Proof.
  intros Ha Hb Hc Ma Mb Mc.
  rewrite (V2_compare_exact a b Ha Hb Ma Mb).
  rewrite (V2_compare_exact b c Hb Hc Mb Mc).
  rewrite (V2_compare_exact a c Ha Hc Ma Mc).
  cbv zeta.
  set (pa := V2.value a * _ * _). set (pb := V2.value b * _ * _).
  set (pc := V2.value c * _ * _).
  destruct (Z.eqb_spec (pa - pb) 0), (Z.eqb_spec (pb - pc) 0),
    (Z.eqb_spec (pa - pc) 0),
    (Z.eqb_spec (V2.count a - V2.count b) 0),
    (Z.eqb_spec (V2.count b - V2.count c) 0),
    (Z.eqb_spec (V2.count a - V2.count c) 0);
    cbn [negb]; split; lia.
Qed.

(** *** find *)

(** X10: [find(m)] returns the first node of the chain that holds
    [m]: the nodes from the returned one on are the rest of the chain,
    none of the nodes before it holds [m], and it returns null exactly
    when no node of the chain holds [m]. *)
Theorem find_returns_first_hit (c : ExpEntryEx) (m : Move) :
  (find c m = None <->
   forall n, In n (nodes c) -> V2.move (entry n) <> m)
  /\ (forall r, find c m = Some r ->
       V2.move (entry r) = m
       /\ exists before,
            nodes c = before ++ nodes r
            /\ forall n, In n before -> V2.move (entry n) <> m).
Proof.
  induction c as [e | e nx IH] using ExpEntryEx_chain_ind.
  - cbn [find nodes].
    destruct (Z.eqb_spec (V2.move e) m) as [He | He]; split.
    + split; [discriminate|]. intros H. exfalso.
      apply (H (mkExpEntryEx e None)); [now left | exact He].
    + intros r Hr. injection Hr as <-. split; [exact He|].
      exists []. split; [reflexivity | intros n []].
    + split; [| reflexivity]. intros _ n [<- | []]. exact He.
    + intros r Hr. discriminate.
  - destruct IH as [IHnone IHsome]. cbn [find nodes].
    destruct (Z.eqb_spec (V2.move e) m) as [He | He]; split.
    + split; [discriminate|]. intros H. exfalso.
      apply (H (mkExpEntryEx e (Some nx))); [now left | exact He].
    + intros r Hr. injection Hr as <-. split; [exact He|].
      exists []. split; [reflexivity | intros n []].
    + rewrite IHnone. split.
      * intros H n [<- | Hin]; [exact He | now apply H].
      * intros H n Hin. apply H. now right.
    + intros r Hr. destruct (IHsome r Hr) as (Hm & before & Hn & Hb).
      split; [exact Hm|].
      exists (mkExpEntryEx e (Some nx) :: before). split.
      * cbn [app]. now rewrite Hn.
      * intros n [<- | Hin]; [exact He | now apply Hb].
Qed.

(** X11: the two [find] overloads agree wherever the second one
    answers: what [find(mv, minDepth)] returns is what [find(mv)]
    returns, and its depth is at least [minDepth]; lowering
    [minDepth] never loses a hit; and with [minDepth] set to the depth
    of the node [find(mv)] returns, that node is returned. *)
Theorem find_min_refines_find (c : ExpEntryEx) (mv : Move) (minDepth : Depth) :
  (forall r, find_min c mv minDepth = Some r ->
     find c mv = Some r /\ minDepth <= V2.depth (entry r))
  /\ (forall r lower, lower <= minDepth ->
       find_min c mv minDepth = Some r -> find_min c mv lower = Some r)
  /\ (forall r, find c mv = Some r ->
       find_min c mv (V2.depth (entry r)) = Some r)
  /\ (find c mv = None -> find_min c mv minDepth = None).
Proof.
  rewrite find_is_first_with_move.
  split; [| split; [| split]].
  - intros r. rewrite find_min_is_filtered_find.
    destruct (first_with_move c mv) as [f|]; [| discriminate].
    destruct (Z.ltb_spec (V2.depth (entry f)) minDepth); [discriminate|].
    intros Hr. injection Hr as <-. split; [reflexivity | assumption].
  - intros r lower Hle. rewrite !find_min_is_filtered_find.
    destruct (first_with_move c mv) as [f|]; [| discriminate].
    destruct (Z.ltb_spec (V2.depth (entry f)) minDepth); [discriminate|].
    intros Hr. injection Hr as <-.
    destruct (Z.ltb_spec (V2.depth (entry f)) lower); [lia | reflexivity].
  - intros r Hr. rewrite find_min_is_filtered_find, Hr.
    now rewrite Z.ltb_irrefl.
  - intros Hn. now rewrite find_min_is_filtered_find, Hn.
Qed.

(** *** Constructors *)

(** X12: a record built by the [ExpEntryEx] constructor from a key, a
    value and a depth within the ranges of their types is well-formed
    whatever count is passed, and is a chain of one node: looking up
    its own move returns it, looking up any other move returns null. *)
Theorem new_is_well_formed_singleton (k : Key) (m : Move) (v : Value)
  (d : Depth) (c : Z) :
  0 <= k < 2 ^ 64 -> in_int v -> in_int d ->
  V2.wf (entry (new k m v d c))
  /\ nodes (new k m v d c) = [new k m v d c]
  /\ find (new k m v d c) m = Some (new k m v d c)
  /\ (forall other, other <> m -> find (new k m v d c) other = None).
Proof.
  intros Hk Hv Hd. unfold new, V2.new5.
  cbn [entry nodes find V2.move].
  split; [| split; [| split]].
  - unfold V2.wf. cbn [V2.key V2.value V2.depth V2.count].
    repeat split; try tauto; try apply Hk; wrap_arith.
  - reflexivity.
  - now rewrite Z.eqb_refl.
  - intros other Ho.
    destruct (Z.eqb_spec m other); [congruence | reflexivity].
Qed.

End ExperienceMore.

(** ** engine.cpp: further properties of [set_position] *)

Module EngineMore.
Import Experience Learn Engine EngineFacts.

Section Position.
Context {P : PositionLayer}.

Lemma replay_engine_any_store (moves : list string) :
  forall (L1 L2 : LearnImpl) (e : EngineState) (ld1 ld2 : LearningData),
    engine (replay (L := L1) e ld1 moves)
    = engine (replay (L := L2) e ld2 moves).
Proof.
  induction moves as [| mv rest IH]; intros L1 L2 e ld1 ld2.
  - reflexivity.
  - destruct (Z.eq_dec (to_move (pos e) mv) Move_none) as [Hn | Hn].
    + now rewrite !replay_undecodable by exact Hn.
    + rewrite !replay_decodable by exact Hn. cbv zeta. cbn [engine].
      apply IH.
Qed.

(** X13: the engine state that [set_position] leaves behind (position,
    number of states, capture square) depends on the FEN, the move
    list and the Chess960 option only: not on the position the engine
    held before, not on the learning data, and not on what
    [add_new_learning] does. *)
Theorem set_position_engine_ignores_learning (L1 L2 : LearnImpl)
  (e1 e2 : EngineState) (ld1 ld2 : LearningData) (fen : string)
  (moves : list string) :
  UCI_Chess960 e1 = UCI_Chess960 e2 ->
  engine (set_position (L := L1) e1 ld1 fen moves)
  = engine (set_position (L := L2) e2 ld2 fen moves).
Proof.
  intros H960. unfold set_position. rewrite H960.
  apply replay_engine_any_store.
Qed.

End Position.

Section Replay.
Context {P : PositionLayer} {L : LearnImpl}.

(** The capture square that the loop body leaves after move [m] played
    from position [p]. *)
Lemma capSq_stepped (e : EngineState) (m : Move) :
  capSq (stepped e m) =
    if (dirty_num (dirtyPiece (do_move (pos e) m)) >? 1)
       && (to1 (dirtyPiece (do_move (pos e) m)) =? SQ_NONE)
    then to_sq m else SQ_NONE.
Proof. reflexivity. Qed.

Lemma replay_reaches (moves : list string) :
  forall e ld,
    pos (engine (replay e ld moves))
    = fold_left do_move (map snd (decoded (pos e) moves)) (pos e)
    /\ states (engine (replay e ld moves))
       = (states e + List.length (decoded (pos e) moves))%nat
    /\ UCI_Chess960 (engine (replay e ld moves)) = UCI_Chess960 e
    /\ (decoded (pos e) moves = [] ->
        capSq (engine (replay e ld moves)) = capSq e)
    /\ (forall before p m,
           decoded (pos e) moves = before ++ [(p, m)] ->
           capSq (engine (replay e ld moves))
           = if (dirty_num (dirtyPiece (do_move p m)) >? 1)
                && (to1 (dirtyPiece (do_move p m)) =? SQ_NONE)
             then to_sq m else SQ_NONE).
Proof.
  induction moves as [| mv rest IH]; intros e ld.
  - cbn [replay decoded engine map fold_left List.length].
    split; [reflexivity|]. split; [lia|]. split; [reflexivity|].
    split; [reflexivity|].
    intros [| x0 xs] p m H; discriminate H.
  - cbn [decoded].
    destruct (Z.eqb_spec (to_move (pos e) mv) Move_none) as [Hn | Hn].
    + rewrite replay_undecodable by exact Hn.
      cbn [engine map fold_left List.length].
      split; [reflexivity|]. split; [lia|]. split; [reflexivity|].
      split; [reflexivity|].
      intros [| x0 xs] p m H; discriminate H.
    + rewrite replay_decodable by exact Hn. cbv zeta. cbn [engine].
      set (m := to_move (pos e) mv) in *.
      match goal with
      | |- context [replay (stepped e m) ?l rest] =>
          destruct (IH (stepped e m) l) as (Hp & Hs & Hc & He & Hl)
      end.
      change (pos (stepped e m)) with (do_move (pos e) m) in *.
      cbn [map snd fold_left List.length].
      split; [exact Hp|]. split; [rewrite Hs; cbn [states stepped]; lia|].
      split; [exact Hc|]. split; [discriminate|].
      intros before p m' Hd. destruct before as [| x before].
      * cbn [app] in Hd. injection Hd as <- <- Hrest.
        rewrite (He Hrest). apply capSq_stepped.
      * cbn [app] in Hd. injection Hd as _ Hrest.
        now apply (Hl before).
Qed.

Lemma decoded_length (moves : list string) :
  forall p, (List.length (decoded p moves) <= List.length moves)%nat.
Proof.
  induction moves as [| mv rest IH]; intros p; cbn [decoded List.length].
  - lia.
  - destruct (to_move p mv =? Move_none); cbn [List.length].
    + lia.
    + specialize (IH (do_move p (to_move p mv))). lia.
Qed.

(** X14: after [set_position] the engine stands at the position
    obtained from the FEN by making, in order, the moves that decode up
    to the first that does not; it holds one state more than moves
    made; the capture square is [SQ_NONE] when no move was made and is
    otherwise decided by the last move made alone. *)
Theorem set_position_reaches_decoded_moves (e : EngineState)
  (ld : LearningData) (fen : string) (moves : list string) :
  let p0 := pos_set fen (UCI_Chess960 e) in
  let made := decoded p0 moves in
  let r := engine (set_position e ld fen moves) in
  pos r = fold_left do_move (map snd made) p0
  /\ states r = S (List.length made)
  /\ (List.length made <= List.length moves)%nat
  /\ (made = [] -> capSq r = SQ_NONE)
  /\ (forall before p m,
         made = before ++ [(p, m)] ->
         capSq r
         = if (dirty_num (dirtyPiece (do_move p m)) >? 1)
              && (to1 (dirtyPiece (do_move p m)) =? SQ_NONE)
           then to_sq m else SQ_NONE).
Proof.
  intros p0 made r. unfold r, set_position.
  match goal with
  | |- context [replay ?e0 ld moves] =>
      destruct (replay_reaches moves e0 ld) as (Hp & Hs & _ & He & Hl)
  end.
  cbn [pos states capSq] in Hp, Hs, He, Hl. fold p0 in Hp, Hs, He, Hl.
  fold made in Hp, Hs, He, Hl.
  split; [exact Hp|]. split; [exact Hs|].
  split; [apply decoded_length|]. split; [exact He | exact Hl].
Qed.

(** X15: with learning off or paused, [set_position] makes no call to
    [LD.add_new_learning] at all and leaves the learning data as it
    was, whatever the implementation of the store is. *)
Theorem set_position_silent_when_off_or_paused (e : EngineState)
  (ld : LearningData) (fen : string) (moves : list string) :
  is_enabled ld = false \/ is_paused ld = true ->
  recorded (set_position e ld fen moves) = []
  /\ LD (set_position e ld fen moves) = ld.
Proof.
  intros Hg. unfold set_position. apply replay_guard_closed.
  unfold replay_records.
  destruct Hg as [-> | ->]; [reflexivity|].
  cbn [negb]. apply andb_false_r.
Qed.

Lemma replay_store_is_fold (moves : list string) :
  forall e ld,
    LD (replay e ld moves)
    = fold_left
        (fun s plm => add_new_learning s (key plm) (learningMove plm))
        (recorded (replay e ld moves)) ld
    /\ (List.length (recorded (replay e ld moves))
        <= List.length (decoded (pos e) moves))%nat.
Proof.
  induction moves as [| mv rest IH]; intros e ld.
  - cbn. split; [reflexivity | lia].
  - cbn [decoded].
    destruct (Z.eqb_spec (to_move (pos e) mv) Move_none) as [Hn | Hn].
    + rewrite replay_undecodable by exact Hn. cbn. split; [reflexivity | lia].
    + rewrite replay_decodable by exact Hn. cbv zeta. cbn [LD recorded].
      rewrite fold_left_app, length_app.
      match goal with
      | |- context [replay (stepped e ?m) ?l rest] =>
          destruct (IH (stepped e m) l) as (Hfold & Hlen)
      end.
      change (pos (stepped e (to_move (pos e) mv)))
        with (do_move (pos e) (to_move (pos e) mv)) in Hlen.
      destruct (replay_records ld); cbn [fold_left List.length];
        (split; [exact Hfold | lia]).
Qed.

(** X16: [set_position] touches the learning data only through the
    calls to [LD.add_new_learning] it makes: the learning data
    afterwards is the result of these calls applied in order to the
    learning data before, and there is at most one call per move
    made. *)
Theorem set_position_store_is_calls_applied (e : EngineState)
  (ld : LearningData) (fen : string) (moves : list string) :
  LD (set_position e ld fen moves)
  = fold_left
      (fun s plm => add_new_learning s (key plm) (learningMove plm))
      (recorded (set_position e ld fen moves)) ld
  /\ (List.length (recorded (set_position e ld fen moves))
      <= List.length (decoded (pos_set fen (UCI_Chess960 e)) moves))%nat.
Proof.
  unfold set_position.
  match goal with
  | |- context [replay ?e0 ld moves] =>
      destruct (replay_store_is_fold moves e0 ld) as (Hfold & Hlen)
  end.
  split; [exact Hfold | exact Hlen].
Qed.

End Replay.

End EngineMore.

(** ** evaluate.cpp: further properties of the evaluation *)

Module EvalMore.
Import CInt CIntFacts WrapFacts Eval EvalFacts.

Lemma to_int_add_both (x y : Z) :
  to_int (to_int x + to_int y) = to_int (x + y).
Proof.
  destruct (to_int_decompose x) as [k ->].
  destruct (to_int_decompose y) as [j ->].
  replace (x + k * 2 ^ 32 + (y + j * 2 ^ 32))
    with (x + y + (k + j) * 2 ^ 32) by ring.
  apply to_int_shift.
Qed.

Lemma to_int_mul_r (x y : Z) : to_int (x * to_int y) = to_int (x * y).
Proof. rewrite (Z.mul_comm x), to_int_mul_l. f_equal. apply Z.mul_comm. Qed.

Lemma to_int_0 : to_int 0 = 0.
Proof. reflexivity. Qed.

Lemma int_mul_0_l (x : Z) : int_mul 0 x = 0.
Proof. unfold int_mul. rewrite Z.mul_0_l. apply to_int_0. Qed.

Lemma int_div_0_l (d : Z) : int_div 0 d = 0.
Proof. unfold int_div. destruct d; reflexivity. Qed.

Section WithLayer.
Context {E : EvalLayer}.

Lemma simple_eval_wrapped (pos : Position) (c : Color) :
  simple_eval pos c =
    to_int (PawnValue * (count_PAWN pos c - count_PAWN pos (flip c))
            + (non_pawn_material_of pos c
               - non_pawn_material_of pos (flip c))).
Proof.
  unfold simple_eval, int_add, int_mul, int_sub.
  rewrite to_int_mul_r. apply to_int_add_both.
Qed.

Lemma flip_involutive (c : Color) : flip (flip c) = c.
Proof. destruct c; reflexivity. Qed.

(** X17: the material evaluation of the two sides is opposite:
    [simple_eval(pos, ~c)] is [-simple_eval(pos, c)] in [int]
    arithmetic, for every position and colour. *)
Theorem simple_eval_antisymmetric (pos : Position) (c : Color) :
  simple_eval pos (flip c) = int_neg (simple_eval pos c).
Proof.
  rewrite !simple_eval_wrapped, flip_involutive.
  unfold int_neg. rewrite to_int_neg_wrap. f_equal. ring.
Qed.

Lemma adjustEval_zero (pos : Position) (simpleEval nnueComplexity
  optDiv nnueDiv pawnCountConstant pawnCountMul npmConstant evalDiv : Z) :
  adjustEval pos simpleEval 0 nnueComplexity 0 optDiv nnueDiv
    pawnCountConstant pawnCountMul npmConstant evalDiv = 0.
Proof.
  unfold adjustEval. cbv zeta.
  assert (Hadd : int_add 0 0 = 0) by reflexivity.
  assert (Hsub : int_sub 0 0 = 0) by reflexivity.
  repeat rewrite ?int_mul_0_l, ?int_div_0_l, ?Hadd, ?Hsub.
  reflexivity.
Qed.

(** X18: when the network returns the value 0 for the position and
    the thread's optimism for the side to move is 0, [evaluate]
    returns exactly 0, whatever the material, the complexity and the
    fifty-move counter are, provided 0 lies within the clamp bounds. *)
Theorem evaluate_zero_for_level_network (pos : Position) :
  checkers pos = 0 ->
  (forall size adjusted psqtOnly,
      fst (nnue_evaluate size pos adjusted psqtOnly) = 0) ->
  thread_optimism pos (side_to_move pos) = 0 ->
  in_int VALUE_TB_LOSS_IN_MAX_PLY -> in_int VALUE_TB_WIN_IN_MAX_PLY ->
  VALUE_TB_LOSS_IN_MAX_PLY + 1 <= 0 <= VALUE_TB_WIN_IN_MAX_PLY - 1 ->
  evaluate pos = Some 0.
Proof.
  intros Hc Hnn Hopt Hlo Hhi Hb. unfold evaluate.
  rewrite Hc, Hopt. cbn [Z.eqb negb]. cbv zeta.
  set (smallNet := int_abs (simple_eval pos (side_to_move pos))
                   >? SmallNetThreshold).
  set (psqtOnly := int_abs (simple_eval pos (side_to_move pos))
                   >? PsqtOnlyThreshold).
  assert (Hpair : exists cx,
             (if smallNet then nnue_evaluate Small pos true psqtOnly
              else nnue_evaluate Big pos true false) = (0, cx)).
  { destruct smallNet.
    - specialize (Hnn Small true psqtOnly).
      destruct (nnue_evaluate Small pos true psqtOnly) as [v cx].
      cbn [fst] in Hnn. subst v. now exists cx.
    - specialize (Hnn Big true false).
      destruct (nnue_evaluate Big pos true false) as [v cx].
      cbn [fst] in Hnn. subst v. now exists cx. }
  destruct Hpair as [cx ->].
  rewrite adjustEval_zero, int_mul_0_l, int_div_0_l.
  rewrite int_add_exact, int_sub_exact
    by (unfold in_int, INT_MIN, INT_MAX in *; lia).
  unfold clamp.
  destruct (Z.ltb_spec 0 (VALUE_TB_LOSS_IN_MAX_PLY + 1)); [lia|].
  destruct (Z.ltb_spec (VALUE_TB_WIN_IN_MAX_PLY - 1) 0); [lia|].
  reflexivity.
Qed.

End WithLayer.

End EvalMore.

(** ** engine.cpp: the thread binding report *)

Module InfoFacts.
Import EngineInfo.

Lemma bound_pairs_length (cfg : NumaConfig) (counts : list N) :
  forall n, List.length (bound_pairs cfg counts n) = List.length counts.
Proof.
  induction counts as [| c rest IH]; intros n; cbn [bound_pairs List.length].
  - reflexivity.
  - now rewrite IH.
Qed.

Lemma bound_pairs_fst (cfg : NumaConfig) (counts : list N) :
  forall n, map fst (bound_pairs cfg counts n) = counts.
Proof.
  induction counts as [| c rest IH]; intros n; cbn [bound_pairs map fst].
  - reflexivity.
  - now rewrite IH.
Qed.

Lemma bound_pairs_snd (cfg : NumaConfig) (counts : list N) :
  forall n,
    map snd (bound_pairs cfg counts n)
    = map (num_cpus_in_numa_node cfg) (seq n (List.length counts)).
Proof.
  induction counts as [| c rest IH]; intros n;
    cbn [bound_pairs map snd List.length seq].
  - reflexivity.
  - now rewrite IH.
Qed.

Lemma unbound_pairs_length (cfg : NumaConfig) (n : nat) :
  List.length (unbound_pairs cfg n) = (num_numa_nodes cfg - n)%nat.
Proof. unfold unbound_pairs. now rewrite length_map, length_seq. Qed.

(** X19: [get_bound_thread_count_by_numa_node] returns nothing when
    the pool reports no counts; otherwise it returns one pair for each
    node index below the larger of the number of counts and the number
    of NUMA nodes, the first components being the reported counts in
    order followed by zeros, and the second component at index [i]
    being the number of CPUs of node [i]. *)
Theorem bound_thread_count_pairs (counts : list N) (cfg : NumaConfig) :
  let r := get_bound_thread_count_by_numa_node counts cfg in
  (counts = [] -> r = [])
  /\ (counts <> [] ->
      List.length r = Nat.max (List.length counts) (num_numa_nodes cfg))
  /\ map fst r
     = (counts ++ repeat 0%N (List.length r - List.length counts))%list
  /\ map snd r = map (num_cpus_in_numa_node cfg) (seq 0 (List.length r)).
Proof.
  intros r. unfold r, get_bound_thread_count_by_numa_node.
  destruct counts as [| c rest].
  - cbn. split; [reflexivity|]. split; [intros H; now destruct H|].
    split; reflexivity.
  - set (counts := c :: rest).
    assert (Hlen : List.length counts = S (List.length rest)) by reflexivity.
    rewrite Hlen. cbn [Nat.eqb negb]. rewrite <- Hlen.
    rewrite length_app, bound_pairs_length, unbound_pairs_length.
    split; [discriminate|]. split; [intros _; lia|].
    rewrite !map_app, bound_pairs_fst, bound_pairs_snd.
    split.
    + f_equal. unfold unbound_pairs. rewrite map_map. cbn [fst].
      replace (List.length counts + (num_numa_nodes cfg - List.length counts)
               - List.length counts)%nat
        with (num_numa_nodes cfg - List.length counts)%nat by lia.
      generalize (num_numa_nodes cfg - List.length counts)%nat as k.
      generalize (List.length counts) as s.
      intros s k. revert s.
      induction k as [| k IH]; intros s; cbn [seq map repeat].
      * reflexivity.
      * now rewrite IH.
    + unfold unbound_pairs. rewrite map_map. cbn [snd].
      rewrite seq_app, map_app. reflexivity.
Qed.

(** *** The report string *)

Lemma append_assoc (a b c : string) :
  ((a ++ b) ++ c = a ++ (b ++ c))%string.
Proof.
  induction a as [| ch a IH]; cbn [append].
  - reflexivity.
  - now rewrite IH.
Qed.

Lemma append_empty_r (a : string) : (a ++ "" = a)%string.
Proof.
  induction a as [| ch a IH]; cbn [append].
  - reflexivity.
  - now rewrite IH.
Qed.

Lemma concat_plain_cons (a : string) (l : list string) :
  String.concat "" (a :: l) = (a ++ String.concat "" l)%string.
Proof.
  destruct l as [| b l]; cbn [String.concat].
  - now rewrite append_empty_r.
  - reflexivity.
Qed.

Lemma binding_loop_later (pairs : list (N * N)) :
  forall ss,
    binding_loop ss false pairs
    = (ss ++ String.concat "" (map (fun ct => ":" ++ ratio ct) pairs))%string.
Proof.
  induction pairs as [| [current total] rest IH]; intros ss.
  - cbn [binding_loop map String.concat]. now rewrite append_empty_r.
  - cbn [binding_loop negb map]. rewrite IH, concat_plain_cons.
    unfold ratio at 2. cbn [fst snd].
    now rewrite ?append_assoc.
Qed.

Lemma concat_colon (rest : list (N * N)) :
  forall x,
    String.concat ":" (map ratio (x :: rest))
    = (ratio x
       ++ String.concat "" (map (fun ct => ":" ++ ratio ct) rest))%string.
Proof.
  induction rest as [| y rest IH]; intros x.
  - cbn [map String.concat]. now rewrite append_empty_r.
  - change (String.concat ":" (map ratio (x :: y :: rest)))
      with (ratio x ++ ":" ++ String.concat ":" (map ratio (y :: rest)))%string.
    rewrite IH. cbn [map]. rewrite concat_plain_cons.
    now rewrite !append_assoc.
Qed.

(** X20: the report of [thread_binding_information_as_string] is
    "Using N thread" (with an "s" when N is above 1), and, when there
    are bound threads, " with NUMA node thread binding: " followed by
    the pairs printed as current/total and separated by single colons:
    no colon before the first pair or after the last. *)
Theorem thread_binding_report_format (threadsSize : N)
  (pairs : list (N * N)) :
  thread_binding_information_as_string threadsSize pairs
  = ("Using " ++ show threadsSize
     ++ (if (1 <? threadsSize)%N then " threads" else " thread")
     ++ match pairs with
        | [] => ""
        | _ => " with NUMA node thread binding: "
               ++ String.concat ":" (map ratio pairs)
        end)%string.
Proof.
  unfold thread_binding_information_as_string. cbv zeta.
  destruct pairs as [| [current total] rest].
  - now rewrite append_empty_r.
  - rewrite concat_colon.
    cbn [binding_loop negb]. rewrite binding_loop_later.
    unfold ratio at 2. cbn [fst snd].
    now rewrite ?append_assoc.
Qed.

End InfoFacts.

(** ** evaluate.cpp: loading and verifying the networks *)

Module NNUEFacts.
Import Eval NNUEFiles.

Section WithEnv.
Context {V : NNUEEnv}.

Lemma select_selected (evalFile : EvalFile) (name : string) :
  selected_name evalFile = name -> select evalFile name = evalFile.
Proof. intros <-. destruct evalFile; reflexivity. Qed.

Lemma select_twice (evalFile : EvalFile) (name : string) :
  select (select evalFile name) name = select evalFile name.
Proof. reflexivity. Qed.

(** One directory: nothing happens once the net is selected; otherwise
    the net becomes selected exactly if it loads from there. *)
Lemma try_directory_step (netSize : NetSize) (user : string)
  (evalFile : EvalFile) (directory : string) :
  try_directory netSize user evalFile directory =
    if String.eqb (selected_name evalFile) user then evalFile
    else if loadable netSize user (default_name evalFile) directory
         then select evalFile user
         else evalFile.
Proof.
  unfold try_directory, loadable.
  destruct (String.eqb (selected_name evalFile) user); cbn [negb];
    [reflexivity|].
  destruct (String.eqb directory "<internal>"); cbn [negb andb orb].
  - destruct (String.eqb user (default_name evalFile)); cbn [andb];
      reflexivity.
  - destruct (load_eval_file (directory ++ user) user netSize);
      cbn [andb orb]; reflexivity.
Qed.

Lemma try_directories (netSize : NetSize) (user : string)
  (ds : list string) :
  forall evalFile,
    fold_left (try_directory netSize user) ds evalFile =
      if String.eqb (selected_name evalFile) user
         || existsb (loadable netSize user (default_name evalFile)) ds
      then select evalFile user
      else evalFile.
Proof.
  induction ds as [| d ds IH]; intros evalFile; cbn [fold_left existsb].
  - rewrite orb_false_r.
    destruct (String.eqb_spec (selected_name evalFile) user) as [He | He];
      [now rewrite select_selected | reflexivity].
  - rewrite try_directory_step.
    destruct (String.eqb (selected_name evalFile) user) eqn:He.
    + rewrite IH, He. reflexivity.
    + destruct (loadable netSize user (default_name evalFile) d) eqn:Hl;
        cbn [orb].
      * rewrite IH. cbn [select selected_name].
        now rewrite String.eqb_refl.
      * rewrite IH, He. reflexivity.
Qed.

Lemma user_eval_file_select (netSize : NetSize) (evalFile : EvalFile)
  (name : string) :
  user_eval_file netSize (select evalFile name)
  = user_eval_file netSize evalFile.
Proof. reflexivity. Qed.

(** The outcome of [init] for one net. *)
Lemma init_net_outcome (netSize : NetSize) (evalFile : EvalFile) :
  init_net netSize evalFile =
    if String.eqb (selected_name evalFile) (user_eval_file netSize evalFile)
       || existsb
            (loadable netSize (user_eval_file netSize evalFile)
               (default_name evalFile)) dirs
    then select evalFile (user_eval_file netSize evalFile)
    else evalFile.
Proof. unfold init_net. cbv zeta. apply try_directories. Qed.

(** X21: for each net, [init] either leaves the entry as it is or
    selects the requested file, never any other: the requested file
    becomes the selected one exactly when it was selected already or
    loads from one of the directories (the embedded data counting only
    for the default name); the option and default names are never
    changed. *)
Theorem init_selects_requested_or_nothing (netSize : NetSize)
  (evalFile : EvalFile) :
  let user := user_eval_file netSize evalFile in
  let after := init_net netSize evalFile in
  (selected_name after = user <->
   selected_name evalFile = user
   \/ exists d, In d dirs
        /\ loadable netSize user (default_name evalFile) d = true)
  /\ (selected_name after <> user -> after = evalFile)
  /\ option_name after = option_name evalFile
  /\ default_name after = default_name evalFile.
Proof.
  intros user after. unfold after. rewrite init_net_outcome. fold user.
  destruct (String.eqb_spec (selected_name evalFile) user) as [He | He];
    cbn [orb].
  - cbn [select selected_name option_name default_name].
    split; [tauto|]. split; [intros H; now destruct H|].
    split; reflexivity.
  - destruct (existsb (loadable netSize user (default_name evalFile)) dirs)
      eqn:Hex.
    + cbn [select selected_name option_name default_name].
      split; [| split; [intros H; now destruct H | split; reflexivity]].
      split; [| reflexivity]. intros _. right.
      apply existsb_exists in Hex. exact Hex.
    + split; [| split; [reflexivity | split; reflexivity]].
      split; [intros H; contradiction|].
      intros [H | H]; [contradiction|].
      apply existsb_exists in H. congruence.
Qed.

Lemma init_net_idempotent (netSize : NetSize) (evalFile : EvalFile) :
  init_net netSize (init_net netSize evalFile) = init_net netSize evalFile.
Proof.
  rewrite (init_net_outcome netSize evalFile).
  destruct (String.eqb (selected_name evalFile)
              (user_eval_file netSize evalFile)
            || existsb
                 (loadable netSize (user_eval_file netSize evalFile)
                    (default_name evalFile)) dirs) eqn:Hc.
  - rewrite init_net_outcome, user_eval_file_select.
    cbn [select selected_name]. now rewrite String.eqb_refl.
  - rewrite init_net_outcome. now rewrite Hc.
Qed.

(** X22: running [init] a second time changes nothing: a net that was
    selected is not loaded again, and a net that could not be loaded
    still cannot. *)
Theorem init_twice (EvalFiles : list (NetSize * EvalFile)) :
  init (init EvalFiles) = init EvalFiles.
Proof.
  unfold init. rewrite map_map. apply map_ext.
  intros [netSize evalFile]. cbn [fst snd].
  now rewrite init_net_idempotent.
Qed.

(** [verify] returns exactly when every net has its requested file
    selected. *)
Lemma verify_from_returns (EvalFiles : list (NetSize * EvalFile)) :
  forall out,
    (exists out', verify_from out EvalFiles = Returned out')
    <-> Forall
          (fun ne => selected_name (snd ne)
                     = user_eval_file (fst ne) (snd ne)) EvalFiles.
Proof.
  induction EvalFiles as [| [netSize evalFile] rest IH]; intros out;
    cbn [verify_from].
  - split; [constructor | intros _; now exists out].
  - cbv zeta.
    destruct (String.eqb_spec (selected_name evalFile)
                (user_eval_file netSize evalFile)) as [He | He];
      cbn [negb].
    + rewrite IH. split.
      * intros H. constructor; [exact He | exact H].
      * intros H. now inversion H.
    + split.
      * intros [out' H]. discriminate H.
      * intros H. inversion H. contradiction.
Qed.

(** X23: [verify] ends the program exactly when some net does not have
    its requested file selected.  Called after [init], it returns
    exactly when every net either was selected before or loads from
    one of the directories. *)
Theorem verify_returns_iff_all_loaded (EvalFiles : list (NetSize * EvalFile)) :
  ((exists out, verify EvalFiles = Returned out) <->
   forall netSize evalFile,
     In (netSize, evalFile) EvalFiles ->
     selected_name evalFile = user_eval_file netSize evalFile)
  /\ ((exists out, verify (init EvalFiles) = Returned out) <->
      forall netSize evalFile,
        In (netSize, evalFile) EvalFiles ->
        selected_name evalFile = user_eval_file netSize evalFile
        \/ exists d, In d dirs
             /\ loadable netSize (user_eval_file netSize evalFile)
                  (default_name evalFile) d = true).
Proof.
  unfold verify. rewrite !verify_from_returns, !Forall_forall. split.
  - split.
    + intros H netSize evalFile Hin. apply (H (netSize, evalFile) Hin).
    + intros H [netSize evalFile] Hin. now apply H.
  - unfold init. split.
    + intros H netSize evalFile Hin.
      assert (Hin' : In (netSize, init_net netSize evalFile)
                       (map (fun ne => (fst ne, init_net (fst ne) (snd ne)))
                          EvalFiles)).
      { apply in_map_iff. exists (netSize, evalFile). now split. }
      specialize (H _ Hin'). cbn [fst snd] in H.
      rewrite init_net_outcome in H.
      destruct (String.eqb_spec (selected_name evalFile)
                  (user_eval_file netSize evalFile)) as [He | He];
        [now left|].
      cbn [orb] in H.
      destruct (existsb _ dirs) eqn:Hex.
      * right. now apply existsb_exists in Hex.
      * contradiction.
    + intros H [netSize after] Hin. cbn [fst snd].
      apply in_map_iff in Hin.
      destruct Hin as ([n evalFile] & Heq & Hin). cbn [fst snd] in Heq.
      injection Heq as <- <-.
      rewrite !init_net_outcome.
      destruct (H _ _ Hin) as [He | Hload].
      * rewrite He, String.eqb_refl. cbn [orb].
        cbn [select selected_name]. reflexivity.
      * apply existsb_exists in Hload. rewrite Hload, orb_true_r.
        cbn [select selected_name]. reflexivity.
Qed.

End WithEnv.

End NNUEFacts.

(** ** The further properties at concrete inputs *)

Module MoreInstances.
Import CInt CIntFacts Experience Ranges Learn LearnSpec Engine Samples.
Import MoreSamples EngineInfo NNUEFiles.
Import ExperienceMore EngineMore EvalMore InfoFacts NNUEFacts.

Ltac by_computation := vm_compute; intro; discriminate.

Ltac sample_wf := repeat split; by_computation.

Lemma merge_keeps_well_formed_at_samples :
  exists r,
    V2.merge obs50 obs_deep = Some r
    /\ V2.wf r /\ V2.key r = 77 /\ V2.move r = 796.
Proof.
  exists (V2.mkExpEntry 77 796 70 12 2). split; [reflexivity|].
  apply (merge_keeps_well_formed obs50 obs_deep);
    [sample_wf | sample_wf | reflexivity].
Defined.

Lemma merge_depth_count_monotone_at_samples :
  exists r,
    V2.merge obs_deep obs50 = Some r
    /\ V2.depth obs_deep <= V2.depth r /\ V2.count obs_deep <= V2.count r.
Proof.
  exists (V2.mkExpEntry 77 796 70 12 2). split; [reflexivity|].
  destruct (merge_depth_count_monotone obs_deep obs50
              (V2.mkExpEntry 77 796 70 12 2))
    as (Hd & _ & _ & Hc & _);
    [sample_wf | sample_wf | reflexivity |].
  exact (conj Hd Hc).
Defined.

(** Depths 10, 12 and 20 with counts 1, 1 and 4. *)
Lemma merge_three_count_depth_at_samples :
  exists ab r1 bc r2,
    V2.merge obs50 obs_deep = Some ab /\ V2.merge ab obs_deepest = Some r1
    /\ V2.merge obs_deep obs_deepest = Some bc
    /\ V2.merge obs50 bc = Some r2
    /\ V2.count r1 = 6 /\ V2.depth r1 = 20 /\ V2.value r1 = -15
    /\ V2.count r2 = 6 /\ V2.depth r2 = 20 /\ V2.value r2 = -15.
Proof.
  destruct (merge_three_count_depth obs50 obs_deep obs_deepest)
    as (ab & r1 & bc & r2 & H1 & H2 & H3 & H4 & Hc1 & Hc2 & Hd1 & Hd2 & Hv);
    [sample_wf | sample_wf | sample_wf
     | reflexivity | reflexivity | reflexivity | reflexivity |].
  exists ab, r1, bc, r2.
  destruct Hv as [Hv1 Hv2]; [reflexivity | reflexivity |].
  rewrite Hc2, Hd2, Hc1, Hd1, Hv1, Hv2.
  repeat split; assumption || reflexivity.
Defined.

Lemma merge_with_itself_at_sample :
  V2.merge obs50 obs50 = Some (V2.mkExpEntry 77 796 50 10 2).
Proof.
  apply (merge_with_itself obs50); [sample_wf | split; by_computation].
Defined.

Lemma compare_zero_on_same_record : V2.compare obs_other obs_other = 0.
Proof.
  apply (proj2 (proj2 compare_zero_only_on_tie) obs_other). sample_wf.
Defined.

Lemma modest_obs70 : modest obs70.
Proof. repeat split; by_computation || reflexivity. Qed.

Lemma modest_obs50 : modest obs50.
Proof. repeat split; by_computation || reflexivity. Qed.

Lemma modest_obs_other : modest obs_other.
Proof. repeat split; by_computation || reflexivity. Qed.

(** 70 ranks above 50, 50 above the other move, hence 70 above the
    other move. *)
Lemma compare_transitive_at_samples : 0 < V2.compare obs70 obs_other.
Proof.
  apply (proj1 (compare_transitive obs70 obs50 obs_other
                  ltac:(sample_wf) ltac:(sample_wf) ltac:(sample_wf)
                  modest_obs70 modest_obs50 modest_obs_other));
    reflexivity.
Defined.

Lemma find_returns_first_hit_at_chain2 :
  V2.move (entry (mkExpEntryEx obs_deep None)) = 796
  /\ exists before,
       nodes chain2 = (before ++ nodes (mkExpEntryEx obs_deep None))%list
       /\ forall n, In n before -> V2.move (entry n) <> 796.
Proof.
  apply (proj2 (find_returns_first_hit chain2 796)
           (mkExpEntryEx obs_deep None)).
  reflexivity.
Defined.

Lemma find_min_refines_find_at_chain2 :
  find chain2 796 = Some (mkExpEntryEx obs_deep None)
  /\ 12 <= V2.depth (entry (mkExpEntryEx obs_deep None)).
Proof.
  apply (proj1 (find_min_refines_find chain2 796 12)
           (mkExpEntryEx obs_deep None)).
  reflexivity.
Defined.

Lemma new_is_well_formed_singleton_at_sample :
  V2.wf (entry (new 77 796 50 10 300))
  /\ nodes (new 77 796 50 10 300) = [new 77 796 50 10 300]
  /\ find (new 77 796 50 10 300) 796 = Some (new 77 796 50 10 300)
  /\ (forall other, other <> 796 -> find (new 77 796 50 10 300) other = None).
Proof.
  apply (new_is_well_formed_singleton 77 796 50 10 300);
    split; by_computation || reflexivity.
Defined.

Open Scope string_scope.

(** The same moves replayed with two different stores and from two
    different engines. *)
Lemma set_position_engine_ignores_learning_at_samples :
  engine
    (set_position (L := spec_impl) toy_engine ld_standard "startpos"
       ["e2e4"; "e7e5"])
  = engine
      (set_position (L := logging_store)
         (mkEngineState [796] 2 28 false) ld_off "startpos"
         ["e2e4"; "e7e5"]).
Proof.
  apply (set_position_engine_ignores_learning spec_impl logging_store).
  reflexivity.
Defined.

Lemma set_position_reaches_decoded_moves_at_samples :
  capSq
    (engine
       (set_position (L := spec_impl) toy_engine ld_standard "startpos"
          ["zzzz"; "e2e4"]))
  = 64.
Proof.
  apply (proj1 (proj2 (proj2 (proj2
           (set_position_reaches_decoded_moves (L := spec_impl) toy_engine
              ld_standard "startpos" ["zzzz"; "e2e4"]))))).
  reflexivity.
Defined.

Lemma set_position_silent_when_paused :
  recorded
    (set_position (L := logging_store) toy_engine ld_paused "startpos"
       ["e2e4"; "e7e5"]) = []
  /\ LD
       (set_position (L := logging_store) toy_engine ld_paused "startpos"
          ["e2e4"; "e7e5"]) = ld_paused.
Proof.
  apply (set_position_silent_when_off_or_paused (L := logging_store)).
  right. reflexivity.
Defined.

Close Scope string_scope.

Lemma evaluate_zero_for_level_network_at_sample :
  Eval.evaluate (E := toy_eval) (0, 0) = Some 0.
Proof.
  apply (evaluate_zero_for_level_network (E := toy_eval) (0, 0)).
  - reflexivity.
  - intros size adjusted psqtOnly. reflexivity.
  - reflexivity.
  - split; by_computation.
  - split; by_computation.
  - split; by_computation.
Defined.

(** One count reported on a machine of three nodes. *)
Lemma bound_thread_count_pairs_at_numa3 :
  List.length (get_bound_thread_count_by_numa_node [2%N] numa3) = 3%nat.
Proof.
  apply (proj1 (proj2 (bound_thread_count_pairs [2%N] numa3))).
  discriminate.
Defined.

(** The big net loads from the binary directory, the small one from
    the embedded data. *)
Lemma init_selects_requested_at_fresh_big :
  selected_name
    (init_net Eval.Big (mkEvalFile "EvalFile" "big.nnue" "None"))
  = "big.nnue"%string.
Proof.
  refine (proj2 (proj1 (init_selects_requested_or_nothing Eval.Big
                          (mkEvalFile "EvalFile" "big.nnue" "None"))) _).
  right. exists "/opt/engine/"%string. split.
  - right; right; left; reflexivity.
  - reflexivity.
Defined.

Lemma verify_returns_after_init_at_fresh :
  exists out, verify (init fresh_files) = Returned out.
Proof.
  apply (proj2 (proj2 (verify_returns_iff_all_loaded fresh_files))).
  intros netSize evalFile [Heq | [Heq | []]];
    injection Heq as <- <-; right.
  - exists "/opt/engine/"%string. split;
      [right; right; left; reflexivity | reflexivity].
  - exists "<internal>"%string. split; [left; reflexivity | reflexivity].
Defined.

End MoreInstances.

(** ** engine.cpp and the store: where the replayed moves end up *)

Module ReplayStoreFacts.
Import Experience Learn LearnSpec Engine Samples.
Import EngineFacts GateFacts EngineMore.

Section Position.
Context {P : PositionLayer}.









End Position.

Open Scope string_scope.



Close Scope string_scope.

End ReplayStoreFacts.
